(** * devEvents: the Event and Booking schemas, the connection cache and the
      event-details page, embedded in Rocq.

    Sources: [database/event.model.ts], [database/booking.model.ts],
    the connection cache ([connectToDatabase]) and the event-details page
    ([EventDetailsPage]).

    JavaScript strings are sequences of UTF-16 code units; they are modelled
    as lists of [N].  Regular expressions of the sources carry no [u] flag,
    so they read a string one code unit at a time. *)

From stdpp Require Import base option list strings gmap.
From Stdlib Require Import ZArith NArith Ascii Lia.

Open Scope N_scope.

(** ** JavaScript strings *)

Abbreviation jsstring := (list N).

(** The code units of an ASCII literal. *)
Fixpoint lit (s : string) : jsstring :=
  match s with
  | EmptyString => []
  | String a r => N_of_ascii a :: lit r
  end.

Module Char.
Definition tab : N := 9.
Definition space : N := 32.
Definition dash : N := 45.
Definition dot : N := 46.
Definition colon : N := 58.
Definition at_sign : N := 64.
Definition zero : N := 48.
Definition upper_T : N := 84.

Definition isDigit (c : N) : bool := (48 <=? c) && (c <=? 57).
Definition isLower (c : N) : bool := (97 <=? c) && (c <=? 122).
Definition isUpper (c : N) : bool := (65 <=? c) && (c <=? 90).
Definition isDash (c : N) : bool := c =? dash.
Definition isAscii (c : N) : bool := c <? 128.

(** [\s] of a regular expression, and the code units [String.prototype.trim]
    strips: WhiteSpace and LineTerminator of ECMAScript. *)
Definition isWhiteSpace (c : N) : bool :=
  ((9 <=? c) && (c <=? 13)) || (c =? 32) || (c =? 0xA0) || (c =? 0x1680)
  || ((0x2000 <=? c) && (c <=? 0x200A))
  || (c =? 0x2028) || (c =? 0x2029) || (c =? 0x202F) || (c =? 0x205F)
  || (c =? 0x3000) || (c =? 0xFEFF).

(** ASCII letters and digits as they stand in a title, before lowercasing. *)
Definition isAsciiAlnum (c : N) : bool := isDigit c || isLower c || isUpper c.
End Char.

Module Str.
(** [String.prototype.trim]. *)
Fixpoint trimStart (s : jsstring) : jsstring :=
  match s with
  | c :: t => if Char.isWhiteSpace c then trimStart t else s
  | [] => []
  end.

Definition trimEnd (s : jsstring) : jsstring := rev (trimStart (rev s)).

Definition trim (s : jsstring) : jsstring := trimEnd (trimStart s).

(** [s.replace(/[C]/g, "")] for a character class [C]: every code unit of
    the class is dropped. *)
Definition removeAll (cls : N -> bool) (s : jsstring) : jsstring :=
  List.filter (fun c => negb (cls c)) s.

(** [s.replace(/[C]+/g, r)]: the scan goes left to right and [+] is greedy,
    so each maximal run of the class is replaced by one [r].  [inRun] says
    that the code unit before belonged to the run being replaced. *)
Fixpoint replaceRunsFrom (cls : N -> bool) (r : jsstring) (inRun : bool)
    (s : jsstring) : jsstring :=
  match s with
  | [] => []
  | c :: t =>
      if cls c
      then (if inRun then [] else r) ++ replaceRunsFrom cls r true t
      else c :: replaceRunsFrom cls r false t
  end.

Definition replaceRuns (cls : N -> bool) (r s : jsstring) : jsstring :=
  replaceRunsFrom cls r false s.

(** The last code unit is dropped when it is a dash: the alternative [-$]
    of [/^-|-$/g]. *)
Fixpoint dropFinalDash (s : jsstring) : jsstring :=
  match s with
  | [] => []
  | [c] => if Char.isDash c then [] else [c]
  | c :: t => c :: dropFinalDash t
  end.

(** [s.replace(/^-|-$/g, "")].  Without the [m] flag [^] holds at index 0
    only and [$] at the end only.  The scan tries index 0 first: a dash
    there is matched by [^-] and removed, and the scan goes on from index 1,
    where only [-$] can still match. *)
Definition stripEdgeDashes (s : jsstring) : jsstring :=
  match s with
  | c :: t => if Char.isDash c then dropFinalDash t else dropFinalDash s
  | [] => []
  end.

(** [s.padStart(2, "0")]. *)
Definition padStart2 (s : jsstring) : jsstring :=
  match s with
  | [] => [Char.zero; Char.zero]
  | [c] => [Char.zero; c]
  | _ => s
  end.

(** [s.split("T")[0]]: the code units before the first [T]. *)
Fixpoint beforeFirst (sep : N) (s : jsstring) : jsstring :=
  match s with
  | [] => []
  | c :: t => if c =? sep then [] else c :: beforeFirst sep t
  end.
End Str.

(** ** [String.prototype.toLowerCase]

    ECMAScript lowercases by the Unicode default case conversion.  ASCII is
    written out.  Two code points outside ASCII have a lowercase mapping that
    contains an ASCII letter, and they are written out too: U+0130 (capital I
    with dot above) maps to [i] followed by U+0307, and U+212A (the Kelvin
    sign) maps to [k].  The rest of the Unicode tables is the parameter
    [ucdLower]: it receives the code units before (nearest first) and after
    the one it maps, which is what surrogate pairs and the final-sigma rule
    read. *)

Abbreviation ucd_table := (jsstring -> N -> jsstring -> jsstring).

Section ToLowerCase.
Variable ucdLower : ucd_table.

Definition lowerUnit (before : jsstring) (c : N) (after : jsstring) : jsstring :=
  if Char.isUpper c then [c + 32]
  else if Char.isAscii c then [c]
  else if c =? 0x130 then [0x69; 0x307]
  else if c =? 0x212A then [0x6B]
  else ucdLower before c after.

Fixpoint lowerFrom (before s : jsstring) : jsstring :=
  match s with
  | [] => []
  | c :: t => lowerUnit before c t ++ lowerFrom (c :: before) t
  end.

Definition toLowerCase (s : jsstring) : jsstring := lowerFrom [] s.
End ToLowerCase.

(** A table that leaves every other code unit as it is, for running the
    definitions on concrete strings. *)
Definition ucdIdentity : ucd_table := fun _ c _ => [c].

(** ** [createSlug] (event.model.ts) *)

Section CreateSlug.
Variable ucdLower : ucd_table.

(** The class [[a-z0-9\s-]] kept by the first [replace]. *)
Definition slugKeep (c : N) : bool :=
  Char.isLower c || Char.isDigit c || Char.isWhiteSpace c || Char.isDash c.

Definition createSlug (title : jsstring) : jsstring :=
  Str.stripEdgeDashes
    (Str.replaceRuns Char.isDash [Char.dash]
      (Str.replaceRuns Char.isWhiteSpace [Char.dash]
        (Str.removeAll (fun c => negb (slugKeep c))
          (Str.trim (toLowerCase ucdLower title))))).
End CreateSlug.

(** ** Errors and results *)

(** A thrown [Error]: its message. *)
Record Error := mkError { message : string }.

Inductive result (A : Type) : Type :=
| Ok (a : A)
| Throw (e : Error).
Arguments Ok {A} a.
Arguments Throw {A} e.

(** ** Numbers written in decimal *)

Module Dec.
(** [Number(s)] for a string of ASCII digits. *)
Definition digitValue (c : N) : N := c - 48.

Definition Number (s : jsstring) : N :=
  fold_left (fun acc c => 10 * acc + digitValue c) s 0.

(** [n.toString()] for a non-negative integer: no leading zero. *)
Fixpoint toStringFuel (fuel : nat) (n : N) : jsstring :=
  match fuel with
  | O => []
  | S f =>
      if n <? 10 then [48 + n]
      else toStringFuel f (n / 10) ++ [48 + n mod 10]
  end.

Definition toString (n : N) : jsstring := toStringFuel (S (N.size_nat n)) n.

(** The last [w] decimal digits of [n], zero-padded: the fixed-width fields
    of [Date.prototype.toISOString]. *)
Fixpoint fixedWidth (w : nat) (n : N) : jsstring :=
  match w with
  | O => []
  | S w' => fixedWidth w' (n / 10) ++ [48 + n mod 10]
  end.
End Dec.

(** ** [normalizeTime] (event.model.ts) *)

(** [trimmed.match(/^(?<hour>\d{1,2}):(?<minute>\d{2})$/)]: the groups
    [hour] and [minute] when the whole string matches. *)
Definition matchTime (s : jsstring) : option (jsstring * jsstring) :=
  match s with
  | [h; c; m1; m2] =>
      if Char.isDigit h && (c =? Char.colon) && Char.isDigit m1 && Char.isDigit m2
      then Some ([h], [m1; m2]) else None
  | [h1; h2; c; m1; m2] =>
      if Char.isDigit h1 && Char.isDigit h2 && (c =? Char.colon)
         && Char.isDigit m1 && Char.isDigit m2
      then Some ([h1; h2], [m1; m2]) else None
  | _ => None
  end.

Definition normalizeTime (time : jsstring) : result jsstring :=
  let trimmed := Str.trim time in
  match matchTime trimmed with
  | None => Throw (mkError "Invalid event time. Expected format HH:mm (24-hour)")
  | Some (hourGroup, minuteGroup) =>
      let hour := Dec.Number hourGroup in
      let minute := Dec.Number minuteGroup in
      if (hour <? 0) || (23 <? hour) || (minute <? 0) || (59 <? minute)
      then Throw (mkError "Invalid event time range")
      else
        let hourStr := Str.padStart2 (Dec.toString hour) in
        let minuteStr := Str.padStart2 (Dec.toString minute) in
        Ok (hourStr ++ [Char.colon] ++ minuteStr)
  end.

(** ** Dates

    A time value is a number of milliseconds since the epoch, [None] standing
    for [NaN]. *)

Module JSDate.
Open Scope Z_scope.

Definition msPerDay : Z := 86400000.

Definition isLeapYear (y : Z) : bool :=
  ((y mod 4 =? 0) && negb (y mod 100 =? 0)) || (y mod 400 =? 0).

Definition daysInMonth (y m : Z) : Z :=
  if m =? 2 then (if isLeapYear y then 29 else 28)
  else if (m =? 4) || (m =? 6) || (m =? 9) || (m =? 11) then 30
  else 31.

(** Days from the epoch to the civil date [y-m-d] (proleptic Gregorian). *)
Definition daysFromCivil (y m d : Z) : Z :=
  let y' := if m <=? 2 then y - 1 else y in
  let era := y' / 400 in
  let yoe := y' - era * 400 in
  let mp := if m <=? 2 then m + 9 else m - 3 in
  let doy := (153 * mp + 2) / 5 + d - 1 in
  let doe := yoe * 365 + yoe / 4 - yoe / 100 + doy in
  era * 146097 + doe - 719468.

(** The civil date of a day number: year, month, day. *)
Definition civilFromDays (z : Z) : Z * Z * Z :=
  let z' := z + 719468 in
  let era := z' / 146097 in
  let doe := z' - era * 146097 in
  let yoe := (doe - doe / 1460 + doe / 36524 - doe / 146096) / 365 in
  let doy := doe - (365 * yoe + yoe / 4 - yoe / 100) in
  let mp := (5 * doy + 2) / 153 in
  let d := doy - (153 * mp + 2) / 5 + 1 in
  let m := if mp <? 10 then mp + 3 else mp - 9 in
  let y := yoe + era * 400 in
  ((if m <=? 2 then y + 1 else y), m, d).

Definition digits (w : nat) (n : Z) : jsstring := Dec.fixedWidth w (Z.to_N n).

(** The year of [toISOString]: four digits from 0 to 9999, otherwise a sign
    and six digits. *)
Definition isoYear (y : Z) : jsstring :=
  if (0 <=? y) && (y <=? 9999) then digits 4 y
  else if y <? 0 then lit "-" ++ digits 6 (- y)
  else lit "+" ++ digits 6 y.

(** The date part of [toISOString]: [YYYY-MM-DD] of the UTC day of [t]. *)
Definition isoDate (t : Z) : jsstring :=
  let '(y, m, d) := civilFromDays (t / msPerDay) in
  isoYear y ++ lit "-" ++ digits 2 m ++ lit "-" ++ digits 2 d.

(** The time part of [toISOString]: [HH:mm:ss.sssZ]. *)
Definition isoTime (t : Z) : jsstring :=
  let ms := t mod msPerDay in
  digits 2 (ms / 3600000) ++ lit ":" ++ digits 2 (ms / 60000 mod 60) ++ lit ":"
    ++ digits 2 (ms / 1000 mod 60) ++ lit "." ++ digits 3 (ms mod 1000) ++ lit "Z".

(** [Date.prototype.toISOString] of a valid time value. *)
Definition toISOString (t : Z) : jsstring := isoDate t ++ lit "T" ++ isoTime t.

(** *** [Date.parse]

    Only the forms below are written out; every other string is left to the
    parameter [otherParse], since ECMAScript leaves it to the engine.
    - [YYYY-MM-DD], the date-only form of the ECMAScript date-time format:
      midnight UTC of that day.
    - a four-digit year from 1000 with a month and a day of one or two
      digits that are not both two digits, as "2024-3-5": not the ECMAScript
      format; V8 (Node.js) falls back to its legacy parser, which reads a
      date without a zone as midnight in local time.
    - a string with no ASCII digit: [NaN]; V8 composes a day from one number
      at least. *)

(** [a-b-c] split at its two dashes. *)
Definition splitDashes (s : jsstring) : option (jsstring * jsstring * jsstring) :=
  let a := Str.beforeFirst Char.dash s in
  let r1 := drop (S (length a)) s in
  let b := Str.beforeFirst Char.dash r1 in
  let c := drop (S (length b)) r1 in
  if (length a + length b + length c + 2 =? length s)%nat
     && forallb Char.isDigit a && forallb Char.isDigit b && forallb Char.isDigit c
  then Some (a, b, c) else None.

Definition value (s : jsstring) : Z := Z.of_N (Dec.Number s).

Section Parse.
(** The offset of local time from UTC in milliseconds (LocalTZA), taken
    as one constant: positive east of Greenwich. *)
Variable localTZA : Z.
Variable otherParse : jsstring -> option Z.

Definition parse (s : jsstring) : option Z :=
  match splitDashes s with
  | Some (ys, ms, ds) =>
      let y := value ys in
      let m := value ms in
      let d := value ds in
      let wellFormed :=
        (length ys =? 4)%nat
        && (1 <=? length ms)%nat && (length ms <=? 2)%nat
        && (1 <=? length ds)%nat && (length ds <=? 2)%nat
        && (1 <=? m) && (m <=? 12) && (1 <=? d) && (d <=? daysInMonth y m) in
      if wellFormed && (length ms =? 2)%nat && (length ds =? 2)%nat
      then Some (daysFromCivil y m d * msPerDay)
      else if wellFormed && (1000 <=? y)
      then Some (daysFromCivil y m d * msPerDay - localTZA)
      else otherParse s
  | None =>
      if forallb (fun c => negb (Char.isDigit c)) s then None
      else otherParse s
  end.

(** [normalizeDate] (event.model.ts). *)
Definition normalizeDate (date : jsstring) : result jsstring :=
  match parse date with
  | None => Throw (mkError "Invalid event date provided")
  | Some parsed => Ok (Str.beforeFirst Char.upper_T (toISOString parsed))
  end.
End Parse.
End JSDate.

(** ** The Event schema and its pre-save hook (event.model.ts) *)

Module EventModel.
(** The string paths of the schema. *)
Inductive Field :=
| F_title | F_slug | F_description | F_overview | F_image | F_venue
| F_location | F_date | F_time | F_mode | F_audience | F_organizer.

#[export] Instance Field_eq_dec : EqDecision Field.
Proof. solve_decision. Defined.

Definition fieldName (f : Field) : string :=
  match f with
  | F_title => "title" | F_slug => "slug" | F_description => "description"
  | F_overview => "overview" | F_image => "image" | F_venue => "venue"
  | F_location => "location" | F_date => "date" | F_time => "time"
  | F_mode => "mode" | F_audience => "audience" | F_organizer => "organizer"
  end.

(** A document in memory.  A string path holds a string or nothing
    ([undefined] or [null]: its [typeof] is not ["string"]).
    [modifiedPaths] is what [isModified] answers from. *)
Record EventDocument := mkEvent {
  title : option jsstring;
  slug : option jsstring;
  description : option jsstring;
  overview : option jsstring;
  image : option jsstring;
  venue : option jsstring;
  location : option jsstring;
  date : option jsstring;
  time : option jsstring;
  mode : option jsstring;
  audience : option jsstring;
  agenda : list jsstring;
  organizer : option jsstring;
  tags : list jsstring;
  modifiedPaths : list Field
}.

(** [this[field]]. *)
Definition get (this : EventDocument) (f : Field) : option jsstring :=
  match f with
  | F_title => title this | F_slug => slug this
  | F_description => description this | F_overview => overview this
  | F_image => image this | F_venue => venue this
  | F_location => location this | F_date => date this | F_time => time this
  | F_mode => mode this | F_audience => audience this
  | F_organizer => organizer this
  end.

Definition isModified (this : EventDocument) (f : Field) : bool :=
  bool_decide (f ∈ modifiedPaths this).

(** Assignments of the hook.  The schema's [trim] setter runs on them and
    finds nothing to strip: a slug, an ISO date and a normalized time hold no
    whitespace.  Mongoose also marks the assigned path as modified; that mark
    is not kept here: the hook asks [isModified] of [title], [date] and
    [time] only, each before it assigns that path or without assigning it. *)
Definition set_slug (v : jsstring) (this : EventDocument) : EventDocument :=
  mkEvent (title this) (Some v) (description this) (overview this)
    (image this) (venue this) (location this) (date this) (time this)
    (mode this) (audience this) (agenda this) (organizer this) (tags this)
    (modifiedPaths this).

Definition set_date (v : jsstring) (this : EventDocument) : EventDocument :=
  mkEvent (title this) (slug this) (description this) (overview this)
    (image this) (venue this) (location this) (Some v) (time this)
    (mode this) (audience this) (agenda this) (organizer this) (tags this)
    (modifiedPaths this).

Definition set_time (v : jsstring) (this : EventDocument) : EventDocument :=
  mkEvent (title this) (slug this) (description this) (overview this)
    (image this) (venue this) (location this) (date this) (Some v)
    (mode this) (audience this) (agenda this) (organizer this) (tags this)
    (modifiedPaths this).

Definition requiredFields : list Field :=
  [F_title; F_description; F_overview; F_image; F_venue; F_location;
   F_date; F_time; F_mode; F_audience; F_organizer].

Definition quote : string := String (ascii_of_nat 34) EmptyString.

Definition requiredError (f : Field) : Error :=
  mkError ("Field " +:+ quote +:+ fieldName f +:+ quote
           +:+ " is required and cannot be empty.").

(** [typeof value !== "string" || value.trim().length === 0]. *)
Definition missing (value : option jsstring) : bool :=
  match value with
  | None => true
  | Some s => (length (Str.trim s) =? 0)%nat
  end.

(** The loop over [requiredFields]: the error of the first field that is
    missing. *)
Fixpoint checkRequired (this : EventDocument) (fields : list Field) : option Error :=
  match fields with
  | [] => None
  | f :: rest =>
      if missing (get this f) then Some (requiredError f)
      else checkRequired this rest
  end.

(** [!this.slug]: no slug, or the empty string. *)
Definition slugAbsent (this : EventDocument) : bool :=
  match slug this with
  | None | Some [] => true
  | Some (_ :: _) => false
  end.

(** Reading a path that the helpers take as a string.  After
    [checkRequired] the path holds one; on nothing the helper would call a
    method of [undefined]. *)
Definition asString (v : option jsstring) : result jsstring :=
  match v with
  | Some s => Ok s
  | None => Throw (mkError "TypeError: cannot read properties of undefined")
  end.

Section PreSave.
Variable ucdLower : ucd_table.
Variable localTZA : Z.
Variable otherParse : jsstring -> option Z.

(** [if (!this.slug || this.isModified("title")) this.slug = createSlug(this.title)]. *)
Definition slugStep (this : EventDocument) : EventDocument * option Error :=
  if slugAbsent this || isModified this F_title then
    match asString (title this) with
    | Ok t => (set_slug (createSlug ucdLower t) this, None)
    | Throw e => (this, Some e)
    end
  else (this, None).

(** [if (this.isModified("date")) this.date = normalizeDate(this.date)]. *)
Definition dateStep (this : EventDocument) : EventDocument * option Error :=
  if isModified this F_date then
    match asString (date this) with
    | Ok d =>
        match JSDate.normalizeDate localTZA otherParse d with
        | Ok d' => (set_date d' this, None)
        | Throw e => (this, Some e)
        end
    | Throw e => (this, Some e)
    end
  else (this, None).

(** [if (this.isModified("time")) this.time = normalizeTime(this.time)]. *)
Definition timeStep (this : EventDocument) : EventDocument * option Error :=
  if isModified this F_time then
    match asString (time this) with
    | Ok t =>
        match normalizeTime t with
        | Ok t' => (set_time t' this, None)
        | Throw e => (this, Some e)
        end
    | Throw e => (this, Some e)
    end
  else (this, None).

(** The hook: the document as the hook leaves it, and what it hands to
    [next] ([None] for [next()], an error for [next(error)]).  The first
    statement that throws ends the [try] block. *)
Definition preSave (this : EventDocument) : EventDocument * option Error :=
  match checkRequired this requiredFields with
  | Some e => (this, Some e)
  | None =>
      match slugStep this with
      | (this1, Some e) => (this1, Some e)
      | (this1, None) =>
          match dateStep this1 with
          | (this2, Some e) => (this2, Some e)
          | (this2, None) => timeStep this2
          end
      end
  end.
End PreSave.
End EventModel.

(** ** Regular expressions tested against a whole string

    [^r$] without flags: [test] holds when [r] matches the whole string.
    Matching is by derivatives, one code unit at a time. *)

Module Regex.
Inductive re :=
| Void
| Eps
| Class (cls : N -> bool)
| Seq (a b : re)
| Alt (a b : re)
| Star (a : re).

(** [a+]. *)
Definition Plus (a : re) : re := Seq a (Star a).

Fixpoint nullable (r : re) : bool :=
  match r with
  | Void => false
  | Eps => true
  | Class _ => false
  | Seq a b => nullable a && nullable b
  | Alt a b => nullable a || nullable b
  | Star _ => true
  end.

Fixpoint deriv (c : N) (r : re) : re :=
  match r with
  | Void => Void
  | Eps => Void
  | Class cls => if cls c then Eps else Void
  | Seq a b =>
      if nullable a then Alt (Seq (deriv c a) b) (deriv c b)
      else Seq (deriv c a) b
  | Alt a b => Alt (deriv c a) (deriv c b)
  | Star a => Seq (deriv c a) (Star a)
  end.

Fixpoint test (r : re) (s : jsstring) : bool :=
  match s with
  | [] => nullable r
  | c :: t => test (deriv c r) t
  end.

(** The language of a regular expression. *)
Inductive Matches : re -> jsstring -> Prop :=
| M_Eps : Matches Eps []
| M_Class cls c : cls c = true -> Matches (Class cls) [c]
| M_Seq a b s1 s2 : Matches a s1 -> Matches b s2 -> Matches (Seq a b) (s1 ++ s2)
| M_AltL a b s : Matches a s -> Matches (Alt a b) s
| M_AltR a b s : Matches b s -> Matches (Alt a b) s
| M_StarNil a : Matches (Star a) []
| M_StarCons a s1 s2 :
    Matches a s1 -> Matches (Star a) s2 -> Matches (Star a) (s1 ++ s2).
End Regex.

(** ** The Booking schema and its pre-save hook (booking.model.ts) *)

Module BookingModel.
(** [[^\s@]]. *)
Definition notSpaceAt (c : N) : bool :=
  negb (Char.isWhiteSpace c || (c =? Char.at_sign)).

(** [/^[^\s@]+@[^\s@]+\.[^\s@]+$/]. *)
Definition emailRegex : Regex.re :=
  Regex.Seq (Regex.Plus (Regex.Class notSpaceAt))
    (Regex.Seq (Regex.Class (N.eqb Char.at_sign))
      (Regex.Seq (Regex.Plus (Regex.Class notSpaceAt))
        (Regex.Seq (Regex.Class (N.eqb Char.dot))
          (Regex.Plus (Regex.Class notSpaceAt))))).

(** The schema validator of [email]. *)
Definition emailValidator (value : jsstring) : bool := Regex.test emailRegex value.

(** An [ObjectId]: twelve bytes, as a number. *)
Abbreviation ObjectId := N.

(** A document in memory: [email] as the schema setters ([trim],
    [lowercase]) left it when it was assigned. *)
Record BookingDocument := mkBooking {
  eventId : ObjectId;
  email : jsstring
}.

(** The database: the identifiers of the Event collection and the Booking
    collection. *)
Record Database := mkDatabase {
  events : gset N;
  bookings : list BookingDocument
}.

(** [Event.exists({ _id: this.eventId })]. *)
Definition eventExists (db : Database) (id : ObjectId) : bool :=
  bool_decide (id ∈ events db).

(** The hook: what it hands to [next]. *)
Definition preSave (db : Database) (this : BookingDocument) : option Error :=
  if negb (eventExists db (eventId this)) then
    Some (mkError "Cannot create booking: referenced event does not exist.")
  else if negb (Regex.test emailRegex (email this)) then
    Some (mkError "Invalid email address provided.")
  else None.

(** [doc.save()] as Mongoose runs it: the schema validators, then the
    pre-save hook, then the insertion; an error of either leaves the
    database as it was and rejects.  A failing validator rejects with a
    ValidationError, whose message Mongoose words from the model, the path
    and the validator's message. *)
Definition save (db : Database) (doc : BookingDocument) : Database * result BookingDocument :=
  if negb (emailValidator (email doc)) then
    (db, Throw (mkError
                  "Booking validation failed: email: Invalid email address provided."))
  else
    match preSave db doc with
    | Some e => (db, Throw e)
    | None => (mkDatabase (events db) (bookings db ++ [doc]), Ok doc)
    end.
End BookingModel.

(** ** The connection cache ([connectToDatabase])

    JavaScript runs one task at a time: a call of the async function runs
    without interruption up to its [await], and goes on in a later task, once
    the promise it awaits has settled.  Calls are concurrent when they are
    made before an earlier one has gone on.  The machine below has one event
    for each such uninterrupted piece, and one for the driver settling a
    promise of [mongoose.connect]; a run is any sequence of events. *)

Module ConnectionCache.
(** The connected [Mongoose] instance a promise is fulfilled with. *)
Abbreviation Mongoose := N.

Inductive settlement :=
| Fulfilled (m : Mongoose)
| Rejected (e : Error).

(** [cached]: [conn] and [promise], the latter as the index of the promise
    in [promises]. *)
Record Cached := mkCached {
  conn : option Mongoose;
  promise : option nat
}.

(** A call of [connectToDatabase]: suspended at its [await], or finished. *)
Inductive call :=
| Awaiting (p : nat)
| Returned (m : Mongoose)
| Threw (e : Error).

(** [promises] has one entry for each call of [mongoose.connect], in the
    order of the calls: [None] while the promise is pending.  [calls] has
    one entry for each call of [connectToDatabase]. *)
Record State := mkState {
  cached : Cached;
  promises : list (option settlement);
  calls : list call
}.

(** Module load: [{ conn: null, promise: null }]. *)
Definition initial : State := mkState (mkCached None None) [] [].

(** The number of calls of [mongoose.connect] so far. *)
Definition connectCalls (st : State) : nat := length (promises st).

Inductive event :=
| Call                                  (* [connectToDatabase()] up to its [await] *)
| Settle (p : nat) (r : settlement)     (* the driver settles promise [p] *)
| Resume (c : nat).                     (* call [c] goes on after its [await] *)

(** [connectToDatabase()] from its first statement to [await cached.promise]. *)
Definition enter (st : State) : State :=
  match conn (cached st) with
  | Some m => mkState (cached st) (promises st) (calls st ++ [Returned m])
  | None =>
      match promise (cached st) with
      | None =>
          (* cached.promise = mongoose.connect(MONGODB_URI, options) *)
          let p := length (promises st) in
          mkState (mkCached None (Some p)) (promises st ++ [None])
                  (calls st ++ [Awaiting p])
      | Some p => mkState (cached st) (promises st) (calls st ++ [Awaiting p])
      end
  end.

(** A pending promise settles; a settled one stays as it is. *)
Definition settle (p : nat) (r : settlement) (st : State) : State :=
  match promises st !! p with
  | Some None => mkState (cached st) (<[p := Some r]> (promises st)) (calls st)
  | _ => st
  end.

(** [cached.conn = await cached.promise; return cached.conn] once the
    promise has settled: a rejection is thrown at the [await]. *)
Definition resume (c : nat) (st : State) : State :=
  match calls st !! c with
  | Some (Awaiting p) =>
      match promises st !! p with
      | Some (Some (Fulfilled m)) =>
          mkState (mkCached (Some m) (promise (cached st))) (promises st)
                  (<[c := Returned m]> (calls st))
      | Some (Some (Rejected e)) =>
          mkState (cached st) (promises st) (<[c := Threw e]> (calls st))
      | _ => st
      end
  | _ => st
  end.

Definition step (st : State) (ev : event) : State :=
  match ev with
  | Call => enter st
  | Settle p r => settle p r st
  | Resume c => resume c st
  end.

Definition run (evs : list event) : State := fold_left step evs initial.

Definition isCall (ev : event) : bool :=
  match ev with Call => true | _ => false end.
End ConnectionCache.

(** ** The event-details page ([EventDetailsPage]) *)

Module Page.
(** A parsed JSON value.  Of a number only whether it is zero is read. *)
#[local] Unset Elimination Schemes.
Inductive json :=
| JNull
| JBool (b : bool)
| JNumber (nonzero : bool)
| JString (s : jsstring)
| JArray (items : list json)
| JObject (members : list (jsstring * json)).
#[local] Set Elimination Schemes.

(** A JavaScript value read off the payload: [None] is [undefined]. *)
Definition truthy (v : option json) : bool :=
  match v with
  | None | Some JNull => false
  | Some (JBool b) => b
  | Some (JNumber nz) => nz
  | Some (JString s) => negb (length s =? 0)%nat
  | Some (JArray _) | Some (JObject _) => true
  end.

(** [typeof v === "object"]. *)
Definition typeofObject (v : option json) : bool :=
  match v with
  | Some JNull | Some (JArray _) | Some (JObject _) => true
  | _ => false
  end.

Definition keyEqb (a b : jsstring) : bool := bool_decide (a = b).

(** [v.key] for the keys read here: of a member list the last one with
    that key, as [JSON.parse] keeps it. *)
Definition prop (key : jsstring) (v : option json) : option json :=
  match v with
  | Some (JObject members) =>
      snd <$> List.find (fun kv => keyEqb (fst kv) key) (rev members)
  | _ => None
  end.

(** What [fetch] and [response.json()] gave: [body] is [None] when
    [json()] rejects. *)
Inductive fetched :=
| FetchRejected (e : Error)
| Response (status : Z) (body : option json).

(** [response.ok]: a status from 200 to 299. *)
Definition ok (status : Z) : bool := ((200 <=? status) && (status <=? 299))%Z.

Inductive element :=
| EventUnavailable      (* the section with the heading [Event unavailable] *)
| EventDetails (event : option json) (similarEvents : list json).

(** What leaves a block: a returned element, or something thrown.
    [notFound()] of next/navigation throws the error that Next.js answers
    with its not-found page. *)
Inductive thrown :=
| NotFoundSignal
| Failure (e : Error).

Inductive logged :=
| FailedToFetch (status : Z)
| ErrorParsingJson
| InvalidPayload
| MissingDescription
| ErrorFetching (what : thrown).

(** What the user gets: a rendered element, the not-found page. *)
Inductive outcome :=
| Rendered (el : element)
| NotFound.

Section EventDetailsPage.
(** [getSimilarEventsBySlug(slug)]: its result, or what it throws. *)
Variable similar : result (list json).

(** The [try] block. *)
Definition tryBlock (f : fetched) : list logged * (element + thrown) :=
  match f with
  | FetchRejected e => ([], inr (Failure e))
  | Response status body =>
      if negb (ok status) then
        if (status =? 404)%Z then ([], inr NotFoundSignal)
        else ([FailedToFetch status], inl EventUnavailable)
      else
        match body with
        | None => ([ErrorParsingJson], inr NotFoundSignal)
        | Some data =>
            let event := prop (lit "event") (Some data) in
            if negb (truthy (Some data)) || negb (typeofObject (Some data))
               || negb (truthy event) || negb (typeofObject event)
            then ([InvalidPayload], inr NotFoundSignal)
            else if negb (truthy (prop (lit "description") event))
            then ([MissingDescription], inr NotFoundSignal)
            else
              match similar with
              | Ok similarEvents => ([], inl (EventDetails event similarEvents))
              | Throw e => ([], inr (Failure e))
              end
        end
  end.

(** The page: whatever is thrown inside the [try] block, the signal of
    [notFound()] included, is caught, logged, and answered by
    [notFound()]. *)
Definition EventDetailsPage (f : fetched) : list logged * outcome :=
  match tryBlock f with
  | (log, inl el) => (log, Rendered el)
  | (log, inr t) => (log ++ [ErrorFetching t], NotFound)
  end.
End EventDetailsPage.
End Page.

(** ** The validator of [agenda] and [tags] (event.model.ts) *)

Module ArrayField.
(** A JavaScript value as the validator may receive it ([unknown]): of the
    values that are neither strings nor arrays only the kind is kept. *)
#[local] Unset Elimination Schemes.
Inductive value :=
| VUndefined
| VNull
| VBoolean (b : bool)
| VNumber
| VString (s : jsstring)
| VArray (items : list value)
| VObject.
#[local] Set Elimination Schemes.


End ArrayField.

(** ** A document saved again

    After a save that went through, Mongoose holds the document with no path
    modified. *)

Module Resave.
Import EventModel.

Definition unmodified (this : EventDocument) : EventDocument :=
  mkEvent (title this) (slug this) (description this) (overview this)
    (image this) (venue this) (location this) (date this) (time this)
    (mode this) (audience this) (agenda this) (organizer this) (tags this) [].

(** The paths the hook does not assign. *)
Definition sameElsewhere (a b : EventDocument) : Prop :=
  title a = title b ∧ description a = description b ∧ overview a = overview b
  ∧ image a = image b ∧ venue a = venue b ∧ location a = location b
  ∧ mode a = mode b ∧ audience a = audience b ∧ agenda a = agenda b
  ∧ organizer a = organizer b ∧ tags a = tags b
  ∧ modifiedPaths a = modifiedPaths b.
End Resave.

(** * The vocabulary of the properties *)

Module SlugShape.
(** A code unit a slug may hold: [a-z], [0-9] or a dash. *)
Definition slugChar (c : N) : bool :=
  Char.isLower c || Char.isDigit c || Char.isDash c.

(** No dash is followed by a dash. *)
Fixpoint noDoubleDash (s : jsstring) : Prop :=
  match s with
  | c1 :: (c2 :: _) as t => ¬ (c1 = Char.dash ∧ c2 = Char.dash) ∧ noDoubleDash t
  | _ => True
  end.
End SlugShape.

Module EmailForm.
Import BookingModel.

(** No whitespace and no [@]. *)
Definition plain (s : jsstring) : Prop := Forall (fun c => notSpaceAt c = true) s.

(** The reading of the spec: a local part, [@], and a domain that holds a dot
    somewhere, none of them with whitespace or another [@]. *)
Definition dotSomewhere (s : jsstring) : Prop :=
  ∃ localPart domain,
    s = localPart ++ [Char.at_sign] ++ domain
    ∧ localPart ≠ [] ∧ Char.dot ∈ domain ∧ plain localPart ∧ plain domain.
End EmailForm.

Module Samples.
Import EventModel.

(** A new document, every path of it modified. *)
Definition sampleEvent (t : jsstring) : EventDocument :=
  mkEvent (Some t) None (Some (lit "About")) (Some (lit "Overview"))
    (Some (lit "/banner.png")) (Some (lit "Hall 1")) (Some (lit "Pune"))
    (Some (lit "2024-03-05")) (Some (lit "9:30")) (Some (lit "offline"))
    (Some (lit "Developers")) [lit "Opening"] (Some (lit "devEvents"))
    [lit "web"]
    [F_title; F_description; F_overview; F_image; F_venue; F_location;
     F_date; F_time; F_mode; F_audience; F_organizer].

End Samples.

Module CacheInvariant.
Import ConnectionCache.

(** What a call may be, given the promise of the one connection attempt. *)
Definition callAgrees (o : option settlement) (c : call) : Prop :=
  match c with
  | Awaiting p => p = 0%nat
  | Returned m => o = Some (Fulfilled m)
  | Threw e => o = Some (Rejected e)
  end.

(** The states a run reaches: before the first call nothing is cached; from
    the first call on there is one promise, [cached.promise] is that promise,
    a cached connection is what it was fulfilled with, and every call awaits
    it or has finished with its outcome. *)
Definition reachable (st : State) : Prop :=
  match promises st with
  | [] => cached st = mkCached None None ∧ calls st = []
  | [o] =>
      promise (cached st) = Some 0%nat
      ∧ calls st ≠ []
      ∧ (∀ m, conn (cached st) = Some m → o = Some (Fulfilled m))
      ∧ Forall (callAgrees o) (calls st)
  | _ => False
  end.
End CacheInvariant.

Module SlugShaped.
Import SlugShape.

(** The shape of a slug, as the lemmas below use it. *)
Definition shaped (s : jsstring) : Prop :=
  Forall (fun c => slugChar c = true) s
  ∧ noDoubleDash s
  ∧ head s ≠ Some Char.dash
  ∧ last s ≠ Some Char.dash.
End SlugShaped.

Module Settled.
Import ConnectionCache CacheInvariant.

(** How a call finishes on a settled promise. *)
Definition finish (r : settlement) : call :=
  match r with
  | Fulfilled m => Returned m
  | Rejected e => Threw e
  end.

(** A reachable state whose promise has settled with [r]. *)
Definition settledWith (r : settlement) (st : State) : Prop :=
  promises st = [Some r] ∧ Forall (callAgrees (Some r)) (calls st).
End Settled.

Module CivilCheck.
Import JSDate.
Open Scope Z_scope.

(** [f] holds of the [n] numbers from [start] on. *)
Fixpoint allFrom (f : Z -> bool) (start : Z) (n : nat) : bool :=
  match n with
  | O => true
  | S k => f start && allFrom f (start + 1) k
  end.

(** The days of one cycle of 400 years, counted from 1 March of year 0:
    the civil date of day [doe] is a date of the calendar, and it is the date
    of that day. *)
Definition cycleDay (doe : Z) : bool :=
  let '(y, m, d) := civilFromDays (doe - 719468) in
  (1 <=? m) && (m <=? 12) && (1 <=? d) && (d <=? daysInMonth y m)
  && (daysFromCivil y m d =? doe - 719468).
End CivilCheck.

(** * Properties *)

(** ** The slug *)

Module SlugFacts.
Import SlugShape.
Lemma isDash_spec c : Char.isDash c = true ↔ c = Char.dash.
Proof. unfold Char.isDash. apply N.eqb_eq. Qed.

Lemma whitespace_not_dash c : Char.isWhiteSpace c = true → Char.isDash c = false.
Proof.
  intros H. destruct (Char.isDash c) eqn:E; [|done].
  apply isDash_spec in E. subst c. vm_compute in H. discriminate.
Qed.

Lemma removeAll_keeps s :
  Forall (fun c => slugKeep c = true) (Str.removeAll (fun c => negb (slugKeep c)) s).
Proof.
  unfold Str.removeAll. apply Forall_forall. intros c Hc.
  apply list_elem_of_In, filter_In in Hc as [_ Hc].
  by rewrite negb_involutive in Hc.
Qed.

Lemma spaces_to_dash b s :
  Forall (fun c => slugKeep c = true) s →
  Forall (fun c => slugChar c = true)
         (Str.replaceRunsFrom Char.isWhiteSpace [Char.dash] b s).
Proof.
  intros H. revert b. induction H as [|c s Hc _ IH]; intros b; simpl; [constructor|].
  destruct (Char.isWhiteSpace c) eqn:Ews.
  - destruct b; simpl; [apply IH|]. constructor; [reflexivity | apply IH].
  - constructor; [|apply IH].
    unfold slugKeep in Hc. unfold slugChar. rewrite Ews in Hc.
    by rewrite orb_false_r in Hc.
Qed.

Lemma dashes_chars b s :
  Forall (fun c => slugChar c = true) s →
  Forall (fun c => slugChar c = true)
         (Str.replaceRunsFrom Char.isDash [Char.dash] b s).
Proof.
  intros H. revert b. induction H as [|c s Hc _ IH]; intros b; simpl; [constructor|].
  destruct (Char.isDash c).
  - destruct b; simpl; [apply IH|]. constructor; [reflexivity | apply IH].
  - constructor; [assumption | apply IH].
Qed.

(** Inside a run nothing is written, so what follows a written dash does
    not start with a dash. *)
Lemma dashes_collapsed b s :
  noDoubleDash (Str.replaceRunsFrom Char.isDash [Char.dash] b s)
  ∧ (b = true → head (Str.replaceRunsFrom Char.isDash [Char.dash] b s) ≠ Some Char.dash).
Proof.
  revert b. induction s as [|c s IH]; intros b; simpl.
  - split; [exact I | intros _; discriminate].
  - destruct (Char.isDash c) eqn:Ed.
    + destruct (IH true) as [Hn Hh]. specialize (Hh eq_refl).
      destruct b; simpl.
      * split; [assumption | intros _; assumption].
      * split; [|intros ?; discriminate].
        destruct (Str.replaceRunsFrom Char.isDash [Char.dash] true s) as [|c2 t] eqn:Er;
          [exact I|].
        split; [|assumption].
        intros [_ ->]. by apply Hh.
    + destruct (IH false) as [Hn _]. split.
      * destruct (Str.replaceRunsFrom Char.isDash [Char.dash] false s) as [|c2 t] eqn:Er;
          [exact I|].
        split; [|assumption].
        intros [-> _]. vm_compute in Ed. discriminate.
      * intros _ [= ->]. vm_compute in Ed. discriminate.
Qed.

Lemma noDoubleDash_tail c s : noDoubleDash (c :: s) → noDoubleDash s.
Proof. destruct s; simpl; tauto. Qed.

Lemma dropFinalDash_chars (P : N → Prop) s :
  Forall P s → Forall P (Str.dropFinalDash s).
Proof.
  induction 1 as [|c s Hc Hs IH]; simpl; [constructor|].
  destruct s as [|c2 t].
  - destruct (Char.isDash c); by repeat constructor.
  - by constructor.
Qed.

Lemma dropFinalDash_head s :
  head s ≠ Some Char.dash → head (Str.dropFinalDash s) ≠ Some Char.dash.
Proof.
  destruct s as [|c [|c2 t]]; simpl; [done| |done].
  destruct (Char.isDash c); done.
Qed.

Lemma dropFinalDash_noDoubleDash s :
  noDoubleDash s → noDoubleDash (Str.dropFinalDash s).
Proof.
  induction s as [|c s IH]; [done|].
  intros H. destruct s as [|c2 t].
  - simpl. by destruct (Char.isDash c).
  - change (Str.dropFinalDash (c :: c2 :: t)) with (c :: Str.dropFinalDash (c2 :: t)).
    destruct H as [Hne Ht]. specialize (IH Ht).
    destruct (Str.dropFinalDash (c2 :: t)) as [|c3 u] eqn:E; [exact I|].
    split; [|assumption].
    intros [-> ->]. apply Hne. split; [done|].
    destruct t as [|c4 v]; simpl in E.
    + destruct (Char.isDash c2); [discriminate | congruence].
    + congruence.
Qed.

Lemma dropFinalDash_last s :
  noDoubleDash s → last (Str.dropFinalDash s) ≠ Some Char.dash.
Proof.
  induction s as [|c s IH]; [done|].
  intros H. destruct s as [|c2 t].
  - simpl. destruct (Char.isDash c) eqn:E; [done|].
    simpl. intros [= ->]. vm_compute in E. discriminate.
  - change (Str.dropFinalDash (c :: c2 :: t)) with (c :: Str.dropFinalDash (c2 :: t)).
    destruct H as [Hne Ht]. specialize (IH Ht).
    destruct (Str.dropFinalDash (c2 :: t)) as [|c3 u] eqn:E.
    + simpl. intros [= ->]. apply Hne. split; [done|].
      destruct t as [|c4 v]; simpl in E; [|discriminate].
      destruct (Char.isDash c2) eqn:E2; [|discriminate].
      by apply isDash_spec.
    + exact IH.
Qed.

Lemma noDoubleDash_lookup s i :
  noDoubleDash s → s !! i = Some Char.dash → s !! S i ≠ Some Char.dash.
Proof.
  revert i. induction s as [|c s IH]; intros i H Hi; [done|].
  destruct s as [|c2 t]; [by destruct i|].
  destruct H as [Hne Ht]. destruct i as [|i].
  - simpl in *. intros [= ->]. apply Hne. split; congruence.
  - by apply (IH i Ht).
Qed.
End SlugFacts.

(** C1: for every title, [createSlug] gives a string of lowercase ASCII
    letters, digits and dashes only, in which no dash follows a dash, and
    which neither starts nor ends with a dash.  It holds whatever the Unicode
    tables map the other code units to. *)
Theorem createSlug_shape (ucdLower : ucd_table) (title : jsstring) :
  let s := createSlug ucdLower title in
  Forall (fun c => Char.isLower c || Char.isDigit c || Char.isDash c = true) s
  ∧ (∀ i, s !! i = Some Char.dash → s !! S i ≠ Some Char.dash)
  ∧ head s ≠ Some Char.dash
  ∧ last s ≠ Some Char.dash.
Proof.
  intros s. subst s. unfold createSlug, Str.replaceRuns.
  set (kept := Str.removeAll _ _).
  pose proof (SlugFacts.removeAll_keeps (Str.trim (toLowerCase ucdLower title))) as Hk.
  fold kept in Hk.
  pose proof (SlugFacts.spaces_to_dash false kept Hk) as Hs.
  set (dashed := Str.replaceRunsFrom Char.isWhiteSpace _ _ _) in *.
  pose proof (SlugFacts.dashes_chars false dashed Hs) as Hc.
  destruct (SlugFacts.dashes_collapsed false dashed) as [Hn _].
  set (r := Str.replaceRunsFrom Char.isDash _ _ _) in *.
  assert (Hstrip : Forall (fun c => SlugShape.slugChar c = true) (Str.stripEdgeDashes r)
                   ∧ SlugShape.noDoubleDash (Str.stripEdgeDashes r)
                   ∧ head (Str.stripEdgeDashes r) ≠ Some Char.dash
                   ∧ last (Str.stripEdgeDashes r) ≠ Some Char.dash).
  { destruct r as [|c t]; [by repeat split|].
    unfold Str.stripEdgeDashes. destruct (Char.isDash c) eqn:Ed.
    - apply SlugFacts.isDash_spec in Ed. subst c.
      pose proof (SlugFacts.noDoubleDash_tail _ _ Hn) as Ht.
      repeat split.
      + apply SlugFacts.dropFinalDash_chars. by inversion Hc.
      + by apply SlugFacts.dropFinalDash_noDoubleDash.
      + apply SlugFacts.dropFinalDash_head.
        destruct t as [|c2 u]; [done|]. simpl. intros [= ->]. by destruct Hn as [[] _].
      + by apply SlugFacts.dropFinalDash_last.
    - repeat split.
      + by apply SlugFacts.dropFinalDash_chars.
      + by apply SlugFacts.dropFinalDash_noDoubleDash.
      + apply SlugFacts.dropFinalDash_head. simpl. intros [= ->].
        vm_compute in Ed. discriminate.
      + by apply SlugFacts.dropFinalDash_last. }
  destruct Hstrip as (H1 & H2 & H3 & H4).
  repeat split; [exact H1 | | exact H3 | exact H4].
  intros i. by apply SlugFacts.noDoubleDash_lookup.
Qed.

(** ** The time normalizer *)

Module TimeFacts.
Lemma digit_cases c :
  Char.isDigit c = true →
  c = 48 ∨ c = 49 ∨ c = 50 ∨ c = 51 ∨ c = 52 ∨ c = 53 ∨ c = 54 ∨ c = 55 ∨ c = 56 ∨ c = 57.
Proof.
  unfold Char.isDigit. rewrite andb_true_iff, N.leb_le, N.leb_le. lia.
Qed.

(** Reading one or two digits as a number and writing the number back with
    [padStart(2, "0")] pads the digits themselves. *)
Lemma repad_one h :
  Char.isDigit h = true →
  Str.padStart2 (Dec.toString (Dec.Number [h])) = [Char.zero; h].
Proof.
  intros H. apply digit_cases in H.
  repeat (destruct H as [H | H]; [subst; reflexivity|]). subst; reflexivity.
Qed.

Lemma repad_two h1 h2 :
  Char.isDigit h1 = true → Char.isDigit h2 = true →
  Str.padStart2 (Dec.toString (Dec.Number [h1; h2])) = [h1; h2].
Proof.
  intros H1 H2. apply digit_cases in H1, H2.
  repeat (destruct H1 as [H1 | H1]; [subst h1|]); subst;
    repeat (destruct H2 as [H2 | H2]; [subst; reflexivity|]); subst; reflexivity.
Qed.

(** What [matchTime] accepts: one or two digits, a colon, two digits. *)
Lemma matchTime_Some s hh mm :
  matchTime s = Some (hh, mm) ↔
  s = hh ++ [Char.colon] ++ mm
  ∧ (length hh = 1 ∨ length hh = 2)%nat ∧ length mm = 2%nat
  ∧ Forall (fun c => Char.isDigit c = true) hh
  ∧ Forall (fun c => Char.isDigit c = true) mm.
Proof.
  split.
  - unfold matchTime. intros H.
    destruct s as [|a [|b [|c [|d [|e [|f s]]]]]]; try discriminate.
    + destruct (Char.isDigit a) eqn:Ea; [|discriminate].
      destruct (b =? Char.colon) eqn:Eb; [|discriminate].
      destruct (Char.isDigit c) eqn:Ec; [|discriminate].
      destruct (Char.isDigit d) eqn:Ed; [|discriminate].
      simpl in H. injection H as <- <-. apply N.eqb_eq in Eb. subst b.
      repeat split; auto.
    + destruct (Char.isDigit a) eqn:Ea; [|discriminate].
      destruct (Char.isDigit b) eqn:Eb; [|discriminate].
      destruct (c =? Char.colon) eqn:Ec; [|discriminate].
      destruct (Char.isDigit d) eqn:Ed; [|discriminate].
      destruct (Char.isDigit e) eqn:Ee; [|discriminate].
      simpl in H. injection H as <- <-. apply N.eqb_eq in Ec. subst c.
      repeat split; auto.
  - intros (-> & Hh & Hm & Dh & Dm).
    destruct mm as [|m1 [|m2 [|? ?]]]; try discriminate.
    inversion Dm as [|? ? D1 Dm']; subst. inversion Dm' as [|? ? D2 _]; subst.
    destruct Hh as [Hh | Hh].
    + destruct hh as [|h [|? ?]]; try discriminate.
      inversion Dh as [|? ? D0 _]; subst.
      simpl. by rewrite D0, D1, D2.
    + destruct hh as [|h1 [|h2 [|? ?]]]; try discriminate.
      inversion Dh as [|? ? D0 Dh']; subst. inversion Dh' as [|? ? D0' _]; subst.
      simpl. by rewrite D0, D0', D1, D2.
Qed.
End TimeFacts.

(** C5: ["9:5"] is refused for its format, ["09:05"] gives ["09:05"], and
    ["24:00"] is refused for its range.  In general [normalizeTime] returns a
    string exactly when its input, trimmed, is one or two digits, a colon and
    two digits, with an hour of at most 23 and a minute of at most 59; what it
    returns is the hour padded to two digits with a zero, the colon and the
    minute. *)
Theorem normalizeTime_spec :
  normalizeTime (lit "9:5")
    = Throw (mkError "Invalid event time. Expected format HH:mm (24-hour)")
  ∧ normalizeTime (lit "09:05") = Ok (lit "09:05")
  ∧ normalizeTime (lit "24:00") = Throw (mkError "Invalid event time range")
  ∧ ∀ time r,
      normalizeTime time = Ok r ↔
      ∃ hh mm,
        Str.trim time = hh ++ [Char.colon] ++ mm
        ∧ (length hh = 1 ∨ length hh = 2)%nat ∧ length mm = 2%nat
        ∧ Forall (fun c => Char.isDigit c = true) hh
        ∧ Forall (fun c => Char.isDigit c = true) mm
        ∧ Dec.Number hh <= 23 ∧ Dec.Number mm <= 59
        ∧ r = Str.padStart2 hh ++ [Char.colon] ++ mm.
Proof.
  split; [reflexivity|]. split; [reflexivity|]. split; [reflexivity|].
  intros time r. unfold normalizeTime. split.
  - destruct (matchTime (Str.trim time)) as [[hh mm]|] eqn:Em; [|discriminate].
    apply TimeFacts.matchTime_Some in Em as (Es & Hh & Hm & Dh & Dm).
    destruct (_ || _) eqn:Erange; [discriminate|].
    intros [= <-]. exists hh, mm.
    repeat rewrite orb_false_iff in Erange.
    destruct Erange as [[[_ E1] _] E2].
    apply N.ltb_ge in E1, E2.
    repeat split; try assumption.
    f_equal; [|f_equal].
    + destruct Hh as [Hh | Hh].
      * destruct hh as [|h [|? ?]]; try discriminate.
        inversion Dh; subst. by apply TimeFacts.repad_one.
      * destruct hh as [|h1 [|h2 [|? ?]]]; try discriminate.
        inversion Dh as [|? ? ? Dh']; subst. inversion Dh'; subst.
        by apply TimeFacts.repad_two.
    + destruct mm as [|m1 [|m2 [|? ?]]]; try discriminate.
      inversion Dm as [|? ? ? Dm']; subst. inversion Dm'; subst.
      by apply TimeFacts.repad_two.
  - intros (hh & mm & Es & Hh & Hm & Dh & Dm & Rh & Rm & ->).
    assert (Em : matchTime (Str.trim time) = Some (hh, mm))
      by (apply TimeFacts.matchTime_Some; auto).
    rewrite Em.
    apply N.ltb_ge in Rh, Rm. rewrite Rh, Rm.
    assert (Hneg : ∀ x, (x <? 0) = false) by (intros x; apply N.ltb_ge; lia).
    rewrite !Hneg. cbn [orb]. f_equal. f_equal; [|f_equal].
    + destruct Hh as [Hh | Hh].
      * destruct hh as [|h [|? ?]]; try discriminate.
        inversion Dh; subst. by apply TimeFacts.repad_one.
      * destruct hh as [|h1 [|h2 [|? ?]]]; try discriminate.
        inversion Dh as [|? ? ? Dh']; subst. inversion Dh'; subst.
        by apply TimeFacts.repad_two.
    + destruct mm as [|m1 [|m2 [|? ?]]]; try discriminate.
      inversion Dm as [|? ? ? Dm']; subst. inversion Dm'; subst.
      by apply TimeFacts.repad_two.
Qed.

(** ** The date normalizer *)

Module DateFacts.
Import JSDate.
Open Scope Z_scope.

Lemma fixedWidth_digits w n :
  Forall (fun c => Char.isDigit c = true) (Dec.fixedWidth w n).
Proof.
  revert n. induction w as [|w IH]; intros n; simpl; [constructor|].
  apply Forall_app. split; [apply IH|].
  constructor; [|constructor].
  unfold Char.isDigit.
  assert (n mod 10 < 10)%N as Hlt by (apply N.mod_upper_bound; discriminate).
  revert Hlt. generalize (n mod 10)%N. intros x Hlt.
  apply andb_true_iff. split; apply N.leb_le; lia.
Qed.

Lemma digit_not_T c : Char.isDigit c = true → c ≠ Char.upper_T.
Proof.
  unfold Char.isDigit, Char.upper_T. rewrite andb_true_iff, !N.leb_le. lia.
Qed.

Lemma digits_no_T w n : Forall (fun c => c ≠ Char.upper_T) (digits w n).
Proof.
  unfold digits. eapply Forall_impl; [apply fixedWidth_digits|].
  intros c. apply digit_not_T.
Qed.

(** No [T] stands in the date part. *)
Lemma isoDate_no_T t : Forall (fun c => c ≠ Char.upper_T) (isoDate t).
Proof.
  unfold isoDate. destruct (civilFromDays (t / msPerDay)) as [[y m] d].
  assert (Hsign : ∀ s, Forall (fun c => c ≠ Char.upper_T) (lit s) ↔
                       forallb (fun c => negb (c =? Char.upper_T)%N) (lit s) = true).
  { intros s. rewrite forallb_forall, Forall_forall. split; intros H c Hc.
    - apply negb_true_iff, N.eqb_neq, H. by apply list_elem_of_In.
    - apply N.eqb_neq, negb_true_iff, H. by apply list_elem_of_In. }
  rewrite !Forall_app. repeat split;
    try apply digits_no_T; try (by apply Hsign).
  unfold isoYear. destruct (_ && _); [apply digits_no_T|].
  destruct (y <? 0); rewrite Forall_app; (split; [by apply Hsign | apply digits_no_T]).
Qed.

Lemma beforeFirst_app sep a b :
  Forall (fun c => c ≠ sep) a → Str.beforeFirst sep (a ++ sep :: b) = a.
Proof.
  induction 1 as [|c a Hc _ IH]; simpl.
  - by rewrite N.eqb_refl.
  - apply N.eqb_neq in Hc. rewrite Hc. by rewrite IH.
Qed.

(** [toISOString().split("T")[0]] is the date part. *)
Lemma split_T t : Str.beforeFirst Char.upper_T (toISOString t) = isoDate t.
Proof. unfold toISOString. simpl. apply beforeFirst_app, isoDate_no_T. Qed.

Section Env.
Variable localTZA : Z.
Variable otherParse : jsstring → option Z.

(** ["2024-3-5"] is not in the ECMAScript format: it is read as midnight of
    5 March 2024 in local time. *)
Lemma parse_2024_3_5 :
  parse localTZA otherParse (lit "2024-3-5") = Some (1709596800000 - localTZA).
Proof. reflexivity. Qed.

Lemma parse_not_a_date : parse localTZA otherParse (lit "not-a-date") = None.
Proof. reflexivity. Qed.

Lemma normalizeDate_parsed date parsed :
  parse localTZA otherParse date = Some parsed →
  normalizeDate localTZA otherParse date = Ok (isoDate parsed).
Proof. unfold normalizeDate. intros ->. by rewrite split_T. Qed.

Lemma isoDate_of_day t day :
  day * msPerDay <= t < (day + 1) * msPerDay →
  isoDate t = isoDate (day * msPerDay).
Proof.
  intros H. unfold isoDate.
  replace (t / msPerDay) with day; [by rewrite Z.div_mul|].
  apply Z.div_unique with (r := t - day * msPerDay); unfold msPerDay in *; lia.
Qed.
End Env.
End DateFacts.

(** C2, as the code has it.  ["2024-3-5"] is read in local time, so what
    [normalizeDate] returns for it depends on the time zone of the process:
    ["2024-03-05"] at UTC and west of it, ["2024-03-04"] east of it (offsets
    of less than a day).  ["not-a-date"] is refused with the invalid-date
    error.  In general an input that does not parse is refused with that error,
    and one that parses to the time value [t] gives the date part of the ISO
    string of [t], which is the UTC calendar day of [t]. *)
Theorem normalizeDate_spec (localTZA : Z) (otherParse : jsstring → option Z) :
  ((-86400000 < localTZA <= 0)%Z →
     JSDate.normalizeDate localTZA otherParse (lit "2024-3-5") = Ok (lit "2024-03-05"))
  ∧ ((0 < localTZA <= 86400000)%Z →
     JSDate.normalizeDate localTZA otherParse (lit "2024-3-5") = Ok (lit "2024-03-04"))
  ∧ JSDate.normalizeDate localTZA otherParse (lit "not-a-date")
      = Throw (mkError "Invalid event date provided")
  ∧ ∀ date,
      match JSDate.parse localTZA otherParse date with
      | None =>
          JSDate.normalizeDate localTZA otherParse date
            = Throw (mkError "Invalid event date provided")
      | Some t =>
          JSDate.normalizeDate localTZA otherParse date
            = Ok (Str.beforeFirst Char.upper_T (JSDate.toISOString t))
          ∧ Str.beforeFirst Char.upper_T (JSDate.toISOString t) = JSDate.isoDate t
      end.
Proof.
  split; [|split; [|split]].
  - intros H.
    rewrite (DateFacts.normalizeDate_parsed _ _ _ _ (DateFacts.parse_2024_3_5 _ _)).
    rewrite (DateFacts.isoDate_of_day _ 19787); [reflexivity|].
    unfold JSDate.msPerDay. lia.
  - intros H.
    rewrite (DateFacts.normalizeDate_parsed _ _ _ _ (DateFacts.parse_2024_3_5 _ _)).
    rewrite (DateFacts.isoDate_of_day _ 19786); [reflexivity|].
    unfold JSDate.msPerDay. lia.
  - unfold JSDate.normalizeDate. by rewrite DateFacts.parse_not_a_date.
  - intros date. unfold JSDate.normalizeDate.
    destruct (JSDate.parse localTZA otherParse date) as [t|]; [|reflexivity].
    split; [reflexivity | apply DateFacts.split_T].
Qed.

(** C2 as the spec states it fails east of Greenwich: with the local time of
    India (UTC+05:30, 19800000 ms) ["2024-3-5"] gives ["2024-03-04"]. *)
Lemma normalizeDate_east_of_utc :
  JSDate.normalizeDate 19800000 (fun _ => None) (lit "2024-3-5") = Ok (lit "2024-03-04")
  ∧ JSDate.normalizeDate 19800000 (fun _ => None) (lit "2024-3-5") ≠ Ok (lit "2024-03-05").
Proof.
  assert (H : JSDate.normalizeDate 19800000 (fun _ => None) (lit "2024-3-5")
              = Ok (lit "2024-03-04")) by (vm_compute; reflexivity).
  split; [exact H|]. rewrite H. vm_compute. discriminate.
Qed.

(** ** Regular expressions: the matcher decides the language *)

Module RegexFacts.
Import Regex.

Lemma nullable_spec r : nullable r = true ↔ Matches r [].
Proof.
  split.
  - induction r as [| |cls|a IHa b IHb|a IHa b IHb|a IHa]; simpl; intros H;
      try discriminate.
    + constructor.
    + apply andb_true_iff in H as [Ha Hb].
      change (@nil N) with (@nil N ++ @nil N). constructor; auto.
    + apply orb_true_iff in H as [Ha | Hb]; [apply M_AltL | apply M_AltR]; auto.
    + constructor.
  - intros H. remember (@nil N) as s eqn:Es.
    induction H as [|cls c Hc|a b s1 s2 Ha IHa Hb IHb|a b s Ha IHa|a b s Hb IHb
                    |a|a s1 s2 Ha IHa Hs IHs]; simpl; auto; try discriminate.
    + apply app_eq_nil in Es as [-> ->]. by rewrite IHa, IHb.
    + by rewrite IHa.
    + rewrite IHb by done. apply orb_true_r.
Qed.

Lemma deriv_sound c r s : Matches (deriv c r) s → Matches r (c :: s).
Proof.
  revert s. induction r as [| |cls|a IHa b IHb|a IHa b IHb|a IHa]; simpl; intros s H.
  - inversion H.
  - inversion H.
  - destruct (cls c) eqn:Ec; inversion H; subst. by constructor.
  - assert (Hseq : ∀ w, Matches (Seq (deriv c a) b) w → Matches (Seq a b) (c :: w)).
    { intros w Hw. inversion Hw as [| |? ? s1 s2 H1 H2| | | |]; subst.
      change (c :: s1 ++ s2) with ((c :: s1) ++ s2). constructor; auto. }
    destruct (nullable a) eqn:En; [|by apply Hseq].
    inversion H as [| | |? ? ? HL|? ? ? HR| |]; subst; [by apply Hseq|].
    change (c :: s) with ([] ++ c :: s). constructor; [|by apply IHb].
    by apply nullable_spec.
  - inversion H; subst; [apply M_AltL | apply M_AltR]; auto.
  - inversion H as [| |? ? s1 s2 H1 H2| | | |]; subst.
    change (c :: s1 ++ s2) with ((c :: s1) ++ s2). constructor; auto.
Qed.

Lemma deriv_complete c r w s : Matches r w → w = c :: s → Matches (deriv c r) s.
Proof.
  intros H. revert s.
  induction H as [|cls c' Hc|a b s1 s2 Ha IHa Hb IHb|a b w Ha IHa|a b w Hb IHb
                  |a|a s1 s2 Ha IHa Hs IHs]; intros s Es; simpl.
  - discriminate.
  - injection Es as -> <-. rewrite Hc. constructor.
  - destruct s1 as [|c1 s1'].
    + simpl in Es. subst s2.
      apply nullable_spec in Ha. rewrite Ha. apply M_AltR. by apply IHb.
    + injection Es as -> <-.
      assert (Matches (Seq (deriv c a) b) (s1' ++ s2)) by (constructor; auto).
      destruct (nullable a); [by apply M_AltL | done].
  - apply M_AltL. by apply IHa.
  - apply M_AltR. by apply IHb.
  - discriminate.
  - destruct s1 as [|c1 s1'].
    + simpl in Es. by apply IHs.
    + injection Es as -> <-. constructor; auto.
Qed.

(** [test] decides the language. *)
Lemma test_spec r s : test r s = true ↔ Matches r s.
Proof.
  revert r. induction s as [|c s IH]; intros r; simpl.
  - apply nullable_spec.
  - rewrite IH. split; [apply deriv_sound|].
    intros H. by apply (deriv_complete c r (c :: s)).
Qed.

Lemma class_spec cls s : Matches (Class cls) s ↔ ∃ c, s = [c] ∧ cls c = true.
Proof.
  split.
  - intros H. inversion H; subst. eauto.
  - intros (c & -> & Hc). by constructor.
Qed.

Lemma star_class_spec cls s :
  Matches (Star (Class cls)) s ↔ Forall (fun c => cls c = true) s.
Proof.
  split.
  - intros H. remember (Star (Class cls)) as r eqn:Er.
    induction H as [| | | | | |a s1 s2 Ha _ Hs IHs]; try discriminate; [constructor|].
    injection Er as ->. apply class_spec in Ha as (c & -> & Hc).
    constructor; auto.
  - induction 1 as [|c s Hc _ IH]; [constructor|].
    change (c :: s) with ([c] ++ s). constructor; [by constructor | done].
Qed.

Lemma plus_class_spec cls s :
  Matches (Plus (Class cls)) s ↔ s ≠ [] ∧ Forall (fun c => cls c = true) s.
Proof.
  unfold Plus. split.
  - intros H. inversion H as [| |? ? s1 s2 H1 H2| | | |]; subst.
    apply class_spec in H1 as (c & -> & Hc). apply star_class_spec in H2.
    split; [done | by constructor].
  - intros [Hne H]. destruct H as [|c s Hc Hs]; [done|].
    change (c :: s) with ([c] ++ s).
    constructor; [by constructor | by apply star_class_spec].
Qed.

Lemma seq_spec a b s :
  Matches (Seq a b) s ↔ ∃ s1 s2, s = s1 ++ s2 ∧ Matches a s1 ∧ Matches b s2.
Proof.
  split.
  - intros H. inversion H; subst. eauto.
  - intros (s1 & s2 & -> & H1 & H2). by constructor.
Qed.
End RegexFacts.

(** ** The Booking email *)

Module EmailFacts.
Import BookingModel EmailForm.

Lemma emailRegex_matches s :
  Regex.Matches emailRegex s ↔
  ∃ localPart name tld,
    s = localPart ++ [Char.at_sign] ++ name ++ [Char.dot] ++ tld
    ∧ localPart ≠ [] ∧ name ≠ [] ∧ tld ≠ []
    ∧ plain localPart ∧ plain name ∧ plain tld.
Proof.
  unfold emailRegex, plain. split.
  - intros H.
    apply RegexFacts.seq_spec in H as (l & r1 & -> & Hl & H).
    apply RegexFacts.seq_spec in H as (a & r2 & -> & Ha & H).
    apply RegexFacts.seq_spec in H as (n & r3 & -> & Hn & H).
    apply RegexFacts.seq_spec in H as (d & t & -> & Hd & Ht).
    apply RegexFacts.plus_class_spec in Hl as [Hl Pl].
    apply RegexFacts.plus_class_spec in Hn as [Hn Pn].
    apply RegexFacts.plus_class_spec in Ht as [Ht Pt].
    apply RegexFacts.class_spec in Ha as (ca & -> & Ea).
    apply RegexFacts.class_spec in Hd as (cd & -> & Ed).
    apply N.eqb_eq in Ea, Ed. subst ca cd.
    exists l, n, t. by repeat split.
  - intros (l & n & t & -> & Hl & Hn & Ht & Pl & Pn & Pt).
    apply RegexFacts.seq_spec.
    exists l, ([Char.at_sign] ++ n ++ [Char.dot] ++ t).
    split; [done|]. split; [by apply RegexFacts.plus_class_spec|].
    apply RegexFacts.seq_spec. exists [Char.at_sign], (n ++ [Char.dot] ++ t).
    split; [done|]. split.
    { apply RegexFacts.class_spec. exists Char.at_sign. split; [done | apply N.eqb_refl]. }
    apply RegexFacts.seq_spec. exists n, ([Char.dot] ++ t).
    split; [done|]. split; [by apply RegexFacts.plus_class_spec|].
    apply RegexFacts.seq_spec. exists [Char.dot], t.
    split; [done|]. split; [|by apply RegexFacts.plus_class_spec].
    apply RegexFacts.class_spec. exists Char.dot. split; [done | apply N.eqb_refl].
Qed.
End EmailFacts.

(** C7, as the code has it: ["a@b"] is refused and ["a@b.com"] is accepted.
    The validator accepts exactly the strings made of a local part, [@], and
    a domain in which some dot has text on both sides: local part, the text
    before that dot and the text after it are non-empty and hold neither
    whitespace nor [@]. *)
Theorem emailRegex_spec :
  BookingModel.emailValidator (lit "a@b") = false
  ∧ BookingModel.emailValidator (lit "a@b.com") = true
  ∧ ∀ s,
      BookingModel.emailValidator s = true ↔
      ∃ localPart name tld,
        s = localPart ++ [Char.at_sign] ++ name ++ [Char.dot] ++ tld
        ∧ localPart ≠ [] ∧ name ≠ [] ∧ tld ≠ []
        ∧ EmailForm.plain localPart ∧ EmailForm.plain name ∧ EmailForm.plain tld.
Proof.
  split; [reflexivity|]. split; [reflexivity|].
  intros s. unfold BookingModel.emailValidator.
  rewrite RegexFacts.test_spec. apply EmailFacts.emailRegex_matches.
Qed.

(** C7 as the spec states it counts every dot in the domain: ["a@b."] has a
    local part, one [@], a dot in its domain and no whitespace, and the
    validator refuses it, since nothing follows the dot. *)
Lemma email_trailing_dot_refused :
  EmailForm.dotSomewhere (lit "a@b.")
  ∧ BookingModel.emailValidator (lit "a@b.") = false.
Proof.
  split; [|reflexivity].
  exists (lit "a"), (lit "b."). repeat split; try done.
  - simpl. set_solver.
  - repeat constructor.
  - repeat constructor.
Qed.

(** ** Saving a Booking *)

(** C6: a Booking whose [eventId] is not the identifier of an Event is not
    saved: the hook hands its error to [next], [save] rejects and the database
    stays as it was.  A Booking whose [eventId] is the identifier of an Event
    and whose email passes the validator is saved: it is added to the
    collection and [save] resolves with it. *)
Theorem booking_save_spec (db : BookingModel.Database) (doc : BookingModel.BookingDocument) :
  (BookingModel.eventId doc ∉ BookingModel.events db →
     BookingModel.preSave db doc
       = Some (mkError "Cannot create booking: referenced event does not exist.")
     ∧ ∃ e, BookingModel.save db doc = (db, Throw e))
  ∧ (BookingModel.eventId doc ∈ BookingModel.events db →
     BookingModel.emailValidator (BookingModel.email doc) = true →
     BookingModel.preSave db doc = None
     ∧ BookingModel.save db doc
       = (BookingModel.mkDatabase (BookingModel.events db)
            (BookingModel.bookings db ++ [doc]), Ok doc)).
Proof.
  unfold BookingModel.save, BookingModel.preSave, BookingModel.eventExists,
    BookingModel.emailValidator.
  split.
  - intros Hno. rewrite bool_decide_eq_false_2 by done. simpl.
    split; [reflexivity|].
    destruct (Regex.test _ _); simpl; eauto.
  - intros Hin Hmail. rewrite bool_decide_eq_true_2 by done.
    rewrite Hmail. simpl. split; reflexivity.
Qed.

(** ** The Event pre-save hook *)

Module EventFacts.
Import EventModel.

Section Hook.
Variable ucdLower : ucd_table.
Variable localTZA : Z.
Variable otherParse : jsstring → option Z.

Lemma dateStep_slug this :
  slug (fst (dateStep localTZA otherParse this)) = slug this.
Proof.
  unfold dateStep. destruct (isModified this F_date); [|done].
  destruct (asString (date this)) as [d|e]; [|done].
  by destruct (JSDate.normalizeDate localTZA otherParse d).
Qed.

Lemma timeStep_slug this : slug (fst (timeStep this)) = slug this.
Proof.
  unfold timeStep. destruct (isModified this F_time); [|done].
  destruct (asString (time this)) as [t|e]; [|done].
  by destruct (normalizeTime t).
Qed.


(** A field that passed the check holds a string. *)
Lemma checkRequired_get this fields f :
  checkRequired this fields = None → f ∈ fields →
  ∃ s, get this f = Some s ∧ missing (Some s) = false.
Proof.
  induction fields as [|g rest IH]; simpl; intros Hc Hin; [by apply not_elem_of_nil in Hin|].
  destruct (missing (get this g)) eqn:Em; [discriminate|].
  apply elem_of_cons in Hin as [-> | Hin]; [|by apply IH].
  destruct (get this g) as [s|] eqn:Eg; [eauto | discriminate].
Qed.

(** The loop stops at the first missing field. *)
Lemma checkRequired_first this fields :
  (∃ f, f ∈ fields ∧ missing (get this f) = true) →
  ∃ before f after,
    fields = before ++ f :: after
    ∧ Forall (fun g => missing (get this g) = false) before
    ∧ missing (get this f) = true
    ∧ checkRequired this fields = Some (requiredError f).
Proof.
  induction fields as [|g rest IH]; intros (f & Hin & Hm);
    [by apply not_elem_of_nil in Hin|].
  simpl. destruct (missing (get this g)) eqn:Eg.
  - exists [], g, rest. repeat split; [constructor | done].
  - apply elem_of_cons in Hin as [-> | Hin]; [congruence|].
    destruct IH as (before & f' & after & -> & Hb & Hf & Hc); [eauto|].
    exists (g :: before), f', after. repeat split; try done. by constructor.
Qed.
End Hook.

End EventFacts.




(** C9: when a required string field is absent or empty after trimming,
    the hook hands [next] an error and leaves the document as it was: no
    slug, date or time is written.  The error is the one of the first such
    field, in the order of [requiredFields], and its message is [Field],
    the name of that field between double quotes, and [is required and
    cannot be empty.]; the names are those of the schema. *)
Theorem preSave_required (ucdLower : ucd_table) (localTZA : Z)
    (otherParse : jsstring → option Z) (this : EventModel.EventDocument) :
  (∃ f, f ∈ EventModel.requiredFields
        ∧ EventModel.missing (EventModel.get this f) = true) →
  ∃ before f after,
    EventModel.requiredFields = before ++ f :: after
    ∧ Forall (fun g => EventModel.missing (EventModel.get this g) = false) before
    ∧ EventModel.missing (EventModel.get this f) = true
    ∧ EventModel.preSave ucdLower localTZA otherParse this
      = (this,
         Some (mkError
                 ("Field "
                  +:+ String (ascii_of_nat 34)
                        (EventModel.fieldName f
                         +:+ String (ascii_of_nat 34)
                               " is required and cannot be empty."))))
    ∧ EventModel.fieldName <$> EventModel.requiredFields
      = ["title"; "description"; "overview"; "image"; "venue"; "location";
         "date"; "time"; "mode"; "audience"; "organizer"].
Proof.
  intros H.
  destruct (EventFacts.checkRequired_first this _ H)
    as (before & f & after & E & Hb & Hf & Hc).
  exists before, f, after.
  split; [exact E|]. split; [exact Hb|]. split; [exact Hf|]. split; [|reflexivity].
  unfold EventModel.preSave. rewrite Hc. reflexivity.
Qed.

(** C9 on a document whose title is blank: the error names [title]. *)
Lemma preSave_required_witness :
  let this := Samples.sampleEvent (lit "   ") in
  (∃ f, f ∈ EventModel.requiredFields
        ∧ EventModel.missing (EventModel.get this f) = true)
  ∧ EventModel.preSave ucdIdentity 0 (fun _ => None) this
    = (this,
       Some (mkError
               ("Field "
                +:+ String (ascii_of_nat 34)
                      ("title"
                       +:+ String (ascii_of_nat 34)
                             " is required and cannot be empty.")))).
Proof.
  intros this.
  assert (H : ∃ f, f ∈ EventModel.requiredFields
                   ∧ EventModel.missing (EventModel.get this f) = true).
  { exists EventModel.F_title. split; [apply list_elem_of_here | reflexivity]. }
  split; [exact H|].
  destruct (preSave_required ucdIdentity 0 (fun _ => None) this H)
    as (before & f & after & E & Hb & _ & Hp & _).
  destruct before as [|g before'].
  - injection E as <- _. exact Hp.
  - injection E as <- _. inversion Hb as [|? ? Hg _]. discriminate Hg.
Defined.

(** ** Titles whose slug is empty *)

Module EmptySlugFacts.

Lemma trimStart_Forall (P : N → Prop) s : Forall P s → Forall P (Str.trimStart s).
Proof.
  induction 1 as [|c s Hc Hs IH]; simpl; [constructor|].
  destruct (Char.isWhiteSpace c); [done | by constructor].
Qed.

Lemma trim_Forall (P : N → Prop) s : Forall P s → Forall P (Str.trim s).
Proof.
  intros H. unfold Str.trim, Str.trimEnd.
  apply Forall_rev, trimStart_Forall, Forall_rev. by apply trimStart_Forall.
Qed.

Lemma removeAll_Forall (P : N → Prop) cls s :
  Forall P s → Forall P (Str.removeAll cls s).
Proof.
  unfold Str.removeAll. induction 1 as [|c s Hc Hs IH]; simpl; [constructor|].
  destruct (negb (cls c)); [by constructor | done].
Qed.

(** Once the letters and digits are gone, only whitespace and dashes are
    kept, and the whitespace becomes dashes. *)
Lemma spaces_to_dash_only b s :
  Forall (fun c => Char.isWhiteSpace c || Char.isDash c = true) s →
  Forall (fun c => Char.isDash c = true)
    (Str.replaceRunsFrom Char.isWhiteSpace [Char.dash] b s).
Proof.
  intros H. revert b. induction H as [|c s Hc _ IH]; intros b; simpl; [constructor|].
  destruct (Char.isWhiteSpace c) eqn:Ews.
  - destruct b; simpl; [apply IH|]. constructor; [reflexivity | apply IH].
  - constructor; [exact Hc | apply IH].
Qed.

Lemma dashes_in_run s :
  Forall (fun c => Char.isDash c = true) s →
  Str.replaceRunsFrom Char.isDash [Char.dash] true s = [].
Proof.
  induction 1 as [|c s Hc _ IH]; simpl; [done|]. cbv beta in Hc. by rewrite Hc.
Qed.

Lemma dashes_to_one s :
  Forall (fun c => Char.isDash c = true) s →
  Str.stripEdgeDashes (Str.replaceRuns Char.isDash [Char.dash] s) = [].
Proof.
  unfold Str.replaceRuns. destruct 1 as [|c s Hc Hs]; simpl; [done|].
  cbv beta in Hc. rewrite Hc. by rewrite dashes_in_run.
Qed.

(** A title of ASCII code units without a capital letter is its own
    lowercase. *)
Lemma lowerFrom_ascii ucdLower before s :
  Forall (fun c => Char.isAscii c && negb (Char.isUpper c) = true) s →
  lowerFrom ucdLower before s = s.
Proof.
  intros H. revert before. induction H as [|c s Hc _ IH]; intros before; simpl; [done|].
  cbv beta in Hc.
  apply andb_true_iff in Hc as [Ha Hu]. apply negb_true_iff in Hu.
  unfold lowerUnit. rewrite Hu, Ha. simpl. by rewrite IH.
Qed.

Section Slug.
Variable ucdLower : ucd_table.

Lemma createSlug_empty title :
  Forall (fun c => Char.isLower c || Char.isDigit c = false) (toLowerCase ucdLower title) →
  createSlug ucdLower title = [].
Proof.
  intros H. unfold createSlug.
  apply dashes_to_one, spaces_to_dash_only.
  pose proof (SlugFacts.removeAll_keeps (Str.trim (toLowerCase ucdLower title))) as Hk.
  apply (trim_Forall _ _) in H.
  apply (removeAll_Forall _ (fun c => negb (slugKeep c))) in H.
  revert Hk H. generalize (Str.removeAll (λ c, negb (slugKeep c))
                             (Str.trim (toLowerCase ucdLower title))).
  intros s Hk H. induction Hk as [|c s Hc _ IH]; [constructor|].
  inversion H as [|? ? Hn Hs]; subst. constructor; [|by apply IH].
  cbv beta in Hc, Hn. unfold slugKeep in Hc. rewrite <- !orb_assoc in Hc.
  rewrite orb_assoc in Hc. by rewrite Hn in Hc.
Qed.

Lemma createSlug_empty_ascii title :
  Forall (fun c => Char.isAscii c && negb (Char.isAsciiAlnum c) = true) title →
  createSlug ucdLower title = [].
Proof.
  intros H. apply createSlug_empty. unfold toLowerCase.
  rewrite lowerFrom_ascii.
  - eapply Forall_impl; [exact H|]. intros c Hc. simpl in Hc.
    apply andb_true_iff in Hc as [_ Hc]. apply negb_true_iff in Hc.
    unfold Char.isAsciiAlnum in Hc.
    apply orb_false_iff in Hc as [Hc _]. apply orb_false_iff in Hc as [Hd Hl].
    by rewrite Hd, Hl.
  - eapply Forall_impl; [exact H|]. intros c Hc. simpl in Hc.
    apply andb_true_iff in Hc as [Ha Hc]. apply negb_true_iff in Hc.
    unfold Char.isAsciiAlnum in Hc. apply orb_false_iff in Hc as [_ Hu].
    by rewrite Ha, Hu.
Qed.
End Slug.
End EmptySlugFacts.

(** C10, as the code has it.  A title whose lowercase form holds no ASCII
    letter or digit has the empty slug; so has every title of ASCII code
    units none of which is a letter or a digit, as ["!!!"].  [slug] is not
    among the fields the hook requires: for such a title that passes the
    check, the hook writes the empty slug and goes on to the date and the
    time as for any other; a new document titled ["!!!"] is accepted with the
    slug [""]. *)
Theorem empty_slug_accepted (ucdLower : ucd_table) (localTZA : Z)
    (otherParse : jsstring → option Z) :
  (∀ title,
     Forall (fun c => Char.isLower c || Char.isDigit c = false)
            (toLowerCase ucdLower title) →
     createSlug ucdLower title = [])
  ∧ (∀ title,
     Forall (fun c => Char.isAscii c && negb (Char.isAsciiAlnum c) = true) title →
     createSlug ucdLower title = [])
  ∧ createSlug ucdLower (lit "!!!") = []
  ∧ (EventModel.F_slug ∉ EventModel.requiredFields)
  ∧ (∀ this t,
       EventModel.title this = Some t →
       createSlug ucdLower t = [] →
       EventModel.checkRequired this EventModel.requiredFields = None →
       (EventModel.slugAbsent this || EventModel.isModified this EventModel.F_title = true) →
       EventModel.preSave ucdLower localTZA otherParse this
       = match EventModel.dateStep localTZA otherParse (EventModel.set_slug [] this) with
         | (this2, Some e) => (this2, Some e)
         | (this2, None) => EventModel.timeStep this2
         end)
  ∧ EventModel.preSave ucdLower localTZA otherParse (Samples.sampleEvent (lit "!!!"))
    = (EventModel.set_time (lit "09:30")
         (EventModel.set_slug [] (Samples.sampleEvent (lit "!!!"))), None).
Proof.
  split; [apply EmptySlugFacts.createSlug_empty|].
  split; [apply EmptySlugFacts.createSlug_empty_ascii|].
  split; [reflexivity|].
  split.
  { unfold EventModel.requiredFields. intros H.
    repeat (apply elem_of_cons in H as [H | H]; [discriminate|]).
    by apply not_elem_of_nil in H. }
  split.
  - intros this t Ht Hs Hreq Hcond.
    unfold EventModel.preSave, EventModel.slugStep.
    rewrite Hreq, Hcond, Ht. cbn [EventModel.asString]. by rewrite Hs.
  - reflexivity.
Qed.

(** C10 as the spec states it takes every title without an ASCII letter or
    digit: the Kelvin sign (U+212A) is none, and its lowercase is [k], so the
    title made of it has the slug ["k"]. *)
Lemma kelvin_title_has_slug :
  Forall (fun c => Char.isAsciiAlnum c = false) [0x212A]
  ∧ (∀ ucdLower, createSlug ucdLower [0x212A] = lit "k")
  ∧ createSlug ucdIdentity [0x212A] ≠ [].
Proof.
  split; [by repeat constructor|]. split; [reflexivity | discriminate].
Qed.

(** ** The event-details page on a response that is not OK *)

(** C3, as the code has it: of the statuses that are not OK, 404 is answered
    by the not-found page; every other one is logged and answered by the
    rendered section [Event unavailable], not by the not-found page. *)
Theorem page_not_ok (similar : result (list Page.json)) (status : Z)
    (body : option Page.json) :
  Page.ok status = false →
  (status = 404%Z →
     Page.EventDetailsPage similar (Page.Response status body)
     = ([Page.ErrorFetching Page.NotFoundSignal], Page.NotFound))
  ∧ (status ≠ 404%Z →
     Page.EventDetailsPage similar (Page.Response status body)
     = ([Page.FailedToFetch status], Page.Rendered Page.EventUnavailable)).
Proof.
  intros Hok. unfold Page.EventDetailsPage, Page.tryBlock. rewrite Hok. simpl.
  split.
  - intros ->. reflexivity.
  - intros Hne. apply Z.eqb_neq in Hne. by rewrite Hne.
Qed.

(** C3 on a status 500. *)
Lemma page_not_ok_witness :
  Page.ok 500 = false
  ∧ Page.EventDetailsPage (Ok []) (Page.Response 500 None)
    = ([Page.FailedToFetch 500%Z], Page.Rendered Page.EventUnavailable).
Proof.
  split; [reflexivity|].
  apply (proj2 (page_not_ok (Ok []) 500 None eq_refl)). discriminate.
Defined.

(** C3 as the spec states it sends every status that is not OK to the
    not-found page: a status 500 is not OK and is answered by a rendered
    section. *)
Lemma page_500_is_rendered :
  Page.ok 500 = false
  ∧ snd (Page.EventDetailsPage (Ok []) (Page.Response 500 None)) ≠ Page.NotFound.
Proof. split; [reflexivity | discriminate]. Qed.

(** ** The connection cache: one connection attempt *)

Module ConnectionFacts.
Import ConnectionCache CacheInvariant.

Lemma reachable_initial : reachable initial.
Proof. by split. Qed.

Lemma reachable_enter st : reachable st → reachable (enter st).
Proof.
  unfold reachable, enter. destruct st as [[cn pr] ps cs]; simpl.
  destruct ps as [|o [|? ?]]; [| |done].
  - intros [[= -> ->] ->]. simpl. repeat split; [done|done|].
    by repeat constructor.
  - intros (-> & Hne & Hconn & Hcalls). destruct cn as [m|]; simpl.
    + repeat split; [by destruct cs | done |].
      apply Forall_app. split; [done|]. repeat constructor. by apply Hconn.
    + repeat split; [by destruct cs | done |].
      apply Forall_app. split; [done|]. by repeat constructor.
Qed.

Lemma reachable_settle p r st : reachable st → reachable (settle p r st).
Proof.
  unfold reachable, settle. destruct st as [[cn pr] ps cs]; simpl.
  destruct ps as [|o [|? ?]]; [done| |done].
  intros (-> & Hne & Hconn & Hcalls).
  destruct p as [|p]; simpl; [|by destruct p].
  destruct o as [x|]; simpl; [by repeat split|].
  repeat split; [done| |].
  - intros m Hm. by specialize (Hconn m Hm).
  - eapply Forall_impl; [exact Hcalls|].
    intros [q|m|e]; simpl; [done | discriminate | discriminate].
Qed.

Lemma reachable_resume c st : reachable st → reachable (resume c st).
Proof.
  unfold reachable, resume. destruct st as [[cn pr] ps cs]; simpl.
  destruct ps as [|o [|? ?]]; [|  |done].
  - intros [Hc ->]. simpl. by split.
  - intros (-> & Hne & Hconn & Hcalls).
    destruct (cs !! c) as [[p|m|e]|] eqn:Ec; simpl; try done.
    destruct p as [|p]; simpl; [|by destruct p].
    destruct o as [[m|e]|]; simpl; [| |done].
    + repeat split; [ |congruence| ].
      * intros E. apply (f_equal length) in E. rewrite length_insert in E.
        by destruct cs.
      * by apply Forall_insert.
    + repeat split; [ |done| ].
      * intros E. apply (f_equal length) in E. rewrite length_insert in E.
        by destruct cs.
      * by apply Forall_insert.
Qed.

Lemma reachable_step st ev : reachable st → reachable (step st ev).
Proof.
  destruct ev; simpl;
    [apply reachable_enter | apply reachable_settle | apply reachable_resume].
Qed.

Lemma reachable_fold evs st : reachable st → reachable (fold_left step evs st).
Proof.
  revert st. induction evs as [|ev evs IH]; intros st H; simpl; [done|].
  by apply IH, reachable_step.
Qed.

Lemma reachable_run evs : reachable (run evs).
Proof. apply reachable_fold, reachable_initial. Qed.






End ConnectionFacts.


(** Two calls before the connection exists, and a third one after it. *)
Example two_concurrent_calls :
  let st := ConnectionCache.run
              [ConnectionCache.Call; ConnectionCache.Call;
               ConnectionCache.Settle 0 (ConnectionCache.Fulfilled 7);
               ConnectionCache.Resume 1; ConnectionCache.Resume 0;
               ConnectionCache.Call] in
  ConnectionCache.connectCalls st = 1%nat
  ∧ ConnectionCache.calls st
    = [ConnectionCache.Returned 7; ConnectionCache.Returned 7;
       ConnectionCache.Returned 7]
  ∧ ConnectionCache.cached st = ConnectionCache.mkCached (Some 7) (Some 0%nat).
Proof. by repeat split. Qed.

(** ** The definitions on concrete inputs *)

Example createSlug_hello :
  createSlug ucdIdentity (lit "  Hello,  World -- 2024! ") = lit "hello-world-2024".
Proof. reflexivity. Qed.

Example createSlug_dotted_I : createSlug ucdIdentity [0x130; 0x53] = lit "is".
Proof. reflexivity. Qed.

Example stripEdgeDashes_single : Str.stripEdgeDashes (lit "-") = [].
Proof. reflexivity. Qed.

Example toISOString_india_midnight :
  JSDate.toISOString 1709577000000 = lit "2024-03-04T18:30:00.000Z".
Proof. reflexivity. Qed.

Example toISOString_before_epoch :
  JSDate.toISOString (-1) = lit "1969-12-31T23:59:59.999Z".
Proof. reflexivity. Qed.

Example toISOString_largest :
  JSDate.toISOString 8640000000000000 = lit "+275760-09-13T00:00:00.000Z".
Proof. reflexivity. Qed.

Example normalizeDate_iso_any_zone :
  JSDate.normalizeDate 19800000 (fun _ => None) (lit "2024-03-05") = Ok (lit "2024-03-05").
Proof. reflexivity. Qed.

Example normalizeTime_padded : normalizeTime (lit " 7:59 ") = Ok (lit "07:59").
Proof. reflexivity. Qed.

Example email_dot_first_refused : BookingModel.emailValidator (lit "a@.com") = false.
Proof. reflexivity. Qed.

Example email_two_ats_refused : BookingModel.emailValidator (lit "a@b@c.com") = false.
Proof. reflexivity. Qed.

Example page_renders :
  Page.EventDetailsPage (Ok [])
    (Page.Response 200
       (Some (Page.JObject
          [(lit "event",
            Page.JObject [(lit "description", Page.JString (lit "Talks"))])])))
  = ([], Page.Rendered
           (Page.EventDetails
              (Some (Page.JObject [(lit "description", Page.JString (lit "Talks"))]))
              [])).
Proof. reflexivity. Qed.

Example page_missing_description :
  Page.EventDetailsPage (Ok [])
    (Page.Response 200 (Some (Page.JObject [(lit "event", Page.JObject [])])))
  = ([Page.MissingDescription; Page.ErrorFetching Page.NotFoundSignal], Page.NotFound).
Proof. reflexivity. Qed.

Example rejected_connection_is_not_retried :
  let st := ConnectionCache.run
              [ConnectionCache.Call;
               ConnectionCache.Settle 0 (ConnectionCache.Rejected (mkError "ECONNREFUSED"));
               ConnectionCache.Resume 0; ConnectionCache.Call; ConnectionCache.Resume 1] in
  ConnectionCache.connectCalls st = 1%nat
  ∧ ConnectionCache.calls st
    = [ConnectionCache.Threw (mkError "ECONNREFUSED");
       ConnectionCache.Threw (mkError "ECONNREFUSED")].
Proof. by repeat split. Qed.

(** * Further properties of the code *)

(** ** The slug of a slug *)

Module SlugStable.
Import SlugShape SlugShaped.

Lemma stripEdgeDashes_shaped r :
  Forall (fun c => slugChar c = true) r → noDoubleDash r →
  shaped (Str.stripEdgeDashes r).
Proof.
  intros Hc Hn. unfold shaped.
  destruct r as [|c t]; [by repeat split|].
  unfold Str.stripEdgeDashes. destruct (Char.isDash c) eqn:Ed.
  - apply SlugFacts.isDash_spec in Ed. subst c.
    pose proof (SlugFacts.noDoubleDash_tail _ _ Hn) as Ht.
    split; [|split; [|split]].
    + apply SlugFacts.dropFinalDash_chars. by inversion Hc.
    + by apply SlugFacts.dropFinalDash_noDoubleDash.
    + apply SlugFacts.dropFinalDash_head.
      destruct t as [|c2 u]; [done|]. simpl. intros [= ->]. by destruct Hn as [[] _].
    + by apply SlugFacts.dropFinalDash_last.
  - split; [|split; [|split]].
    + by apply SlugFacts.dropFinalDash_chars.
    + by apply SlugFacts.dropFinalDash_noDoubleDash.
    + apply SlugFacts.dropFinalDash_head. simpl. intros [= ->].
      vm_compute in Ed. discriminate.
    + by apply SlugFacts.dropFinalDash_last.
Qed.

Lemma createSlug_shaped ucdLower title : shaped (createSlug ucdLower title).
Proof.
  unfold createSlug, Str.replaceRuns. apply stripEdgeDashes_shaped.
  - apply SlugFacts.dashes_chars, SlugFacts.spaces_to_dash, SlugFacts.removeAll_keeps.
  - apply SlugFacts.dashes_collapsed.
Qed.

Lemma slugChar_range c :
  slugChar c = true → 97 <= c <= 122 ∨ 48 <= c <= 57 ∨ c = 45.
Proof.
  unfold slugChar, Char.isLower, Char.isDigit, Char.isDash, Char.dash.
  rewrite !orb_true_iff, !andb_true_iff, !N.leb_le, N.eqb_eq. lia.
Qed.

Lemma slugChar_cases c :
  slugChar c = true →
  Char.isAscii c = true ∧ Char.isUpper c = false ∧ Char.isWhiteSpace c = false
  ∧ slugKeep c = true.
Proof.
  intros H. pose proof (slugChar_range c H) as Hr.
  split; [|split; [|split]].
  - apply N.ltb_lt. lia.
  - apply andb_false_iff. rewrite !N.leb_gt. lia.
  - unfold Char.isWhiteSpace.
    repeat (apply orb_false_iff; split);
      try (apply N.eqb_neq; lia); apply andb_false_iff; rewrite !N.leb_gt; lia.
  - unfold slugKeep. unfold slugChar in H.
    apply orb_true_iff in H as [H | H]; [|by rewrite H, orb_true_r].
    apply orb_true_iff in H as [H | H]; rewrite H; [done | by rewrite orb_true_r].
Qed.

Lemma trimStart_no_space s :
  Forall (fun c => Char.isWhiteSpace c = false) s → Str.trimStart s = s.
Proof. destruct 1 as [|c s Hc _]; simpl; [done|]. cbv beta in Hc. by rewrite Hc. Qed.

Lemma trim_no_space s :
  Forall (fun c => Char.isWhiteSpace c = false) s → Str.trim s = s.
Proof.
  intros H. unfold Str.trim, Str.trimEnd. rewrite (trimStart_no_space s H).
  rewrite trimStart_no_space by by apply Forall_rev. apply rev_involutive.
Qed.

Lemma removeAll_none cls s :
  Forall (fun c => cls c = false) s → Str.removeAll cls s = s.
Proof.
  unfold Str.removeAll. induction 1 as [|c s Hc _ IH]; simpl; [done|].
  cbv beta in Hc. by rewrite Hc, IH.
Qed.

Lemma replaceRuns_none cls r b s :
  Forall (fun c => cls c = false) s → Str.replaceRunsFrom cls r b s = s.
Proof.
  intros H. revert b. induction H as [|c s Hc _ IH]; intros b; simpl; [done|].
  cbv beta in Hc. by rewrite Hc, IH.
Qed.

(** Single dashes stay as they are. *)
Lemma replaceRuns_single_dashes b s :
  noDoubleDash s → (b = true → head s ≠ Some Char.dash) →
  Str.replaceRunsFrom Char.isDash [Char.dash] b s = s.
Proof.
  revert b. induction s as [|c s IH]; intros b Hn Hb; simpl; [done|].
  destruct (Char.isDash c) eqn:Ed.
  - apply SlugFacts.isDash_spec in Ed. subst c.
    destruct b; [by destruct Hb|]. simpl. f_equal.
    apply IH; [by apply SlugFacts.noDoubleDash_tail in Hn|].
    intros _. destruct s as [|c2 t]; [done|]. simpl. intros [= ->].
    by destruct Hn as [[] _].
  - f_equal. apply IH; [by apply SlugFacts.noDoubleDash_tail in Hn | done].
Qed.

Lemma dropFinalDash_none s : last s ≠ Some Char.dash → Str.dropFinalDash s = s.
Proof.
  induction s as [|c s IH]; [done|]. intros H. destruct s as [|c2 t].
  - simpl. destruct (Char.isDash c) eqn:Ed; [|done].
    apply SlugFacts.isDash_spec in Ed. by subst c.
  - change (Str.dropFinalDash (c :: c2 :: t)) with (c :: Str.dropFinalDash (c2 :: t)).
    f_equal. by apply IH.
Qed.

Lemma stripEdgeDashes_none s :
  head s ≠ Some Char.dash → last s ≠ Some Char.dash → Str.stripEdgeDashes s = s.
Proof.
  intros Hh Hl. destruct s as [|c t]; [done|].
  unfold Str.stripEdgeDashes. destruct (Char.isDash c) eqn:Ed.
  - apply SlugFacts.isDash_spec in Ed. by subst c.
  - by apply dropFinalDash_none.
Qed.

(** A string of the shape of a slug is its own slug. *)
Lemma createSlug_of_shaped ucdLower s : shaped s → createSlug ucdLower s = s.
Proof.
  intros (Hc & Hn & Hh & Hl). unfold createSlug, Str.replaceRuns, toLowerCase.
  rewrite EmptySlugFacts.lowerFrom_ascii.
  2: { eapply Forall_impl; [exact Hc|]. intros c H.
       apply slugChar_cases in H as (-> & -> & _). done. }
  rewrite trim_no_space.
  2: { eapply Forall_impl; [exact Hc|]. intros c H.
       by apply slugChar_cases in H as (_ & _ & -> & _). }
  rewrite removeAll_none.
  2: { eapply Forall_impl; [exact Hc|]. intros c H.
       apply slugChar_cases in H as (_ & _ & _ & ->). done. }
  rewrite (replaceRuns_none Char.isWhiteSpace).
  2: { eapply Forall_impl; [exact Hc|]. intros c H.
       by apply slugChar_cases in H as (_ & _ & -> & _). }
  rewrite replaceRuns_single_dashes; [|done|done].
  by apply stripEdgeDashes_none.
Qed.
End SlugStable.

(** X1: [createSlug] is idempotent: the slug of a slug is that slug. *)
Theorem createSlug_idempotent (ucdLower : ucd_table) (title : jsstring) :
  createSlug ucdLower (createSlug ucdLower title) = createSlug ucdLower title.
Proof. apply SlugStable.createSlug_of_shaped, SlugStable.createSlug_shaped. Qed.

(** ** A normalized time, normalized again *)

Module TimeStable.

Lemma digit_not_space c : Char.isDigit c = true → Char.isWhiteSpace c = false.
Proof.
  intros H. apply TimeFacts.digit_cases in H.
  repeat (destruct H as [H | H]; [subst; reflexivity|]). subst; reflexivity.
Qed.

(** A leading zero does not change the number read. *)
Lemma Number_padded h :
  Dec.Number [Char.zero; h] = Dec.Number [h].
Proof. unfold Dec.Number. simpl. unfold Dec.digitValue, Char.zero. lia. Qed.

(** What [normalizeTime] returns: two digits, a colon, two digits, within
    the ranges. *)
Lemma normalizeTime_Ok t r :
  normalizeTime t = Ok r →
  ∃ a b m1 m2,
    r = [a; b; Char.colon; m1; m2]
    ∧ Char.isDigit a = true ∧ Char.isDigit b = true
    ∧ Char.isDigit m1 = true ∧ Char.isDigit m2 = true
    ∧ Dec.Number [a; b] <= 23 ∧ Dec.Number [m1; m2] <= 59.
Proof.
  unfold normalizeTime.
  destruct (matchTime (Str.trim t)) as [[hh mm]|] eqn:Em; [|discriminate].
  apply TimeFacts.matchTime_Some in Em as (_ & Hh & Hm & Dh & Dm).
  destruct (_ || _) eqn:Erange; [discriminate|].
  repeat rewrite orb_false_iff in Erange. destruct Erange as [[[_ E1] _] E2].
  apply N.ltb_ge in E1, E2. intros [= <-].
  destruct mm as [|m1 [|m2 [|? ?]]]; try discriminate.
  inversion Dm as [|? ? D1 Dm']; subst. inversion Dm' as [|? ? D2 _]; subst.
  rewrite (TimeFacts.repad_two m1 m2 D1 D2).
  destruct Hh as [Hh | Hh].
  - destruct hh as [|h [|? ?]]; try discriminate.
    inversion Dh as [|? ? D0 _]; subst. rewrite (TimeFacts.repad_one h D0).
    exists Char.zero, h, m1, m2. rewrite Number_padded. by repeat split.
  - destruct hh as [|h1 [|h2 [|? ?]]]; try discriminate.
    inversion Dh as [|? ? D0 Dh']; subst. inversion Dh' as [|? ? D0' _]; subst.
    rewrite (TimeFacts.repad_two h1 h2 D0 D0').
    exists h1, h2, m1, m2. by repeat split.
Qed.

Lemma normalized_trim a b m1 m2 :
  Char.isDigit a = true → Char.isDigit b = true →
  Char.isDigit m1 = true → Char.isDigit m2 = true →
  Str.trim [a; b; Char.colon; m1; m2] = [a; b; Char.colon; m1; m2].
Proof.
  intros Ha Hb H1 H2. apply SlugStable.trim_no_space.
  repeat constructor; try by apply digit_not_space.
Qed.

Lemma normalizeTime_fixed a b m1 m2 :
  Char.isDigit a = true → Char.isDigit b = true →
  Char.isDigit m1 = true → Char.isDigit m2 = true →
  Dec.Number [a; b] <= 23 → Dec.Number [m1; m2] <= 59 →
  normalizeTime [a; b; Char.colon; m1; m2] = Ok [a; b; Char.colon; m1; m2].
Proof.
  intros Ha Hb H1 H2 Rh Rm. unfold normalizeTime.
  rewrite normalized_trim by done.
  assert (Em : matchTime [a; b; Char.colon; m1; m2] = Some ([a; b], [m1; m2])).
  { simpl. by rewrite Ha, Hb, H1, H2. }
  rewrite Em. apply N.ltb_ge in Rh, Rm. rewrite Rh, Rm.
  assert (Hneg : ∀ x, (x <? 0) = false) by (intros x; apply N.ltb_ge; lia).
  rewrite !Hneg. cbn [orb].
  by rewrite (TimeFacts.repad_two a b Ha Hb), (TimeFacts.repad_two m1 m2 H1 H2).
Qed.
End TimeStable.

(** X2: [normalizeTime] is idempotent: a time it returned is returned
    unchanged when it is normalized again. *)
Theorem normalizeTime_idempotent (time r : jsstring) :
  normalizeTime time = Ok r → normalizeTime r = Ok r.
Proof.
  intros H.
  apply TimeStable.normalizeTime_Ok in H
    as (a & b & m1 & m2 & -> & Ha & Hb & H1 & H2 & Rh & Rm).
  by apply TimeStable.normalizeTime_fixed.
Qed.

(** X2 on [" 7:59 "]. *)
Lemma normalizeTime_idempotent_witness :
  normalizeTime (lit " 7:59 ") = Ok (lit "07:59")
  ∧ normalizeTime (lit "07:59") = Ok (lit "07:59").
Proof.
  split; [reflexivity|].
  exact (normalizeTime_idempotent (lit " 7:59 ") (lit "07:59") eq_refl).
Defined.

(** ** The Event pre-save hook: what it writes, when it accepts *)

Module HookFacts.
Import EventModel Resave.

Lemma sameElsewhere_refl a : sameElsewhere a a.
Proof. by repeat split. Qed.

Lemma sameElsewhere_trans a b c :
  sameElsewhere a b → sameElsewhere b c → sameElsewhere a c.
Proof.
  unfold sameElsewhere. intros H1 H2.
  destruct H1 as (?&?&?&?&?&?&?&?&?&?&?&?), H2 as (?&?&?&?&?&?&?&?&?&?&?&?).
  repeat split; congruence.
Qed.

Lemma checkRequired_None this fields :
  checkRequired this fields = None ↔
  Forall (fun f => missing (get this f) = false) fields.
Proof.
  induction fields as [|f rest IH]; simpl.
  - split; [constructor | done].
  - destruct (missing (get this f)) eqn:E.
    + split; [discriminate|]. intros H. inversion H; congruence.
    + rewrite IH. split; [by constructor | by inversion 1].
Qed.

Section Steps.
Variable ucdLower : ucd_table.
Variable localTZA : Z.
Variable otherParse : jsstring → option Z.

(** The three steps, each by what it returns. *)
Lemma slugStep_cases this :
  (slugAbsent this || isModified this F_title = false
   ∧ slugStep ucdLower this = (this, None))
  ∨ (slugAbsent this || isModified this F_title = true
     ∧ ((∃ t, title this = Some t
              ∧ slugStep ucdLower this = (set_slug (createSlug ucdLower t) this, None))
        ∨ (title this = None ∧ ∃ e, slugStep ucdLower this = (this, Some e)))).
Proof.
  unfold slugStep. destruct (slugAbsent this || isModified this F_title); [right | by left].
  split; [done|]. destruct (title this) as [t|]; simpl; eauto.
Qed.

Lemma dateStep_cases this :
  (isModified this F_date = false ∧ dateStep localTZA otherParse this = (this, None))
  ∨ (isModified this F_date = true
     ∧ ((∃ d r, date this = Some d
                ∧ JSDate.normalizeDate localTZA otherParse d = Ok r
                ∧ dateStep localTZA otherParse this = (set_date r this, None))
        ∨ (∃ e, dateStep localTZA otherParse this = (this, Some e)
                ∧ ∀ d, date this = Some d →
                       JSDate.normalizeDate localTZA otherParse d = Throw e))).
Proof.
  unfold dateStep. destruct (isModified this F_date); [right | by left].
  split; [done|]. destruct (date this) as [d|]; simpl.
  - destruct (JSDate.normalizeDate localTZA otherParse d) as [r|e] eqn:E.
    + left. eauto.
    + right. exists e. split; [done|]. by intros ? [= <-].
  - right. eexists. split; [done | discriminate].
Qed.

Lemma timeStep_cases this :
  (isModified this F_time = false ∧ timeStep this = (this, None))
  ∨ (isModified this F_time = true
     ∧ ((∃ t r, time this = Some t ∧ normalizeTime t = Ok r
                ∧ timeStep this = (set_time r this, None))
        ∨ (∃ e, timeStep this = (this, Some e)
                ∧ ∀ t, time this = Some t → normalizeTime t = Throw e))).
Proof.
  unfold timeStep. destruct (isModified this F_time); [right | by left].
  split; [done|]. destruct (time this) as [t|]; simpl.
  - destruct (normalizeTime t) as [r|e] eqn:E.
    + left. eauto.
    + right. exists e. split; [done|]. by intros ? [= <-].
  - right. eexists. split; [done | discriminate].
Qed.

Lemma slugStep_frame this :
  sameElsewhere (fst (slugStep ucdLower this)) this
  ∧ date (fst (slugStep ucdLower this)) = date this
  ∧ time (fst (slugStep ucdLower this)) = time this.
Proof.
  unfold slugStep. destruct (_ || _); [|by repeat split].
  destruct (asString (title this)); by repeat split.
Qed.

Lemma dateStep_frame this :
  sameElsewhere (fst (dateStep localTZA otherParse this)) this
  ∧ time (fst (dateStep localTZA otherParse this)) = time this.
Proof.
  unfold dateStep. destruct (isModified this F_date); [|by repeat split].
  destruct (asString (date this)) as [d|]; [|by repeat split].
  destruct (JSDate.normalizeDate localTZA otherParse d); by repeat split.
Qed.

Lemma timeStep_frame this :
  sameElsewhere (fst (timeStep this)) this
  ∧ date (fst (timeStep this)) = date this.
Proof.
  unfold timeStep. destruct (isModified this F_time); [|by repeat split].
  destruct (asString (time this)) as [t|]; [|by repeat split].
  destruct (normalizeTime t); by repeat split.
Qed.

(** The hook as the sequence of its steps. *)
Lemma preSave_steps this :
  checkRequired this requiredFields = None →
  ∃ this1 r1 this2 r2 this3 r3,
    slugStep ucdLower this = (this1, r1)
    ∧ dateStep localTZA otherParse this1 = (this2, r2)
    ∧ timeStep this2 = (this3, r3)
    ∧ preSave ucdLower localTZA otherParse this
      = match r1 with
        | Some e => (this1, Some e)
        | None => match r2 with
                  | Some e => (this2, Some e)
                  | None => (this3, r3)
                  end
        end.
Proof.
  intros Hreq. unfold preSave. rewrite Hreq.
  destruct (slugStep ucdLower this) as [this1 r1] eqn:E1.
  destruct (dateStep localTZA otherParse this1) as [this2 r2] eqn:E2.
  destruct (timeStep this2) as [this3 r3] eqn:E3.
  exists this1, r1, this2, r2, this3, r3.
  split; [done|]. split; [done|]. split; [done|].
  destruct r1; [done|]. by destruct r2.
Qed.

Lemma preSave_frame this :
  sameElsewhere (fst (preSave ucdLower localTZA otherParse this)) this.
Proof.
  destruct (checkRequired this requiredFields) as [e|] eqn:Hreq.
  - unfold preSave. rewrite Hreq. apply sameElsewhere_refl.
  - destruct (preSave_steps this Hreq)
      as (this1 & r1 & this2 & r2 & this3 & r3 & E1 & E2 & E3 & ->).
    pose proof (slugStep_frame this) as [F1 _]. rewrite E1 in F1.
    pose proof (dateStep_frame this1) as [F2 _]. rewrite E2 in F2.
    pose proof (timeStep_frame this2) as [F3 _]. rewrite E3 in F3.
    simpl in *.
    destruct r1; [done|]. destruct r2; simpl.
    + by eapply sameElsewhere_trans.
    + eapply sameElsewhere_trans; [exact F3|]. by eapply sameElsewhere_trans.
Qed.
End Steps.
End HookFacts.

(** X3: the hook assigns [slug], [date] and [time] only: whether it
    accepts or rejects, the other string paths, [agenda] and [tags] hold
    what they held. *)
Theorem preSave_writes_three_paths (ucdLower : ucd_table) (localTZA : Z)
    (otherParse : jsstring → option Z) (this : EventModel.EventDocument) :
  let after := fst (EventModel.preSave ucdLower localTZA otherParse this) in
  EventModel.title after = EventModel.title this
  ∧ EventModel.description after = EventModel.description this
  ∧ EventModel.overview after = EventModel.overview this
  ∧ EventModel.image after = EventModel.image this
  ∧ EventModel.venue after = EventModel.venue this
  ∧ EventModel.location after = EventModel.location this
  ∧ EventModel.mode after = EventModel.mode this
  ∧ EventModel.audience after = EventModel.audience this
  ∧ EventModel.agenda after = EventModel.agenda this
  ∧ EventModel.organizer after = EventModel.organizer this
  ∧ EventModel.tags after = EventModel.tags this.
Proof.
  intros after. subst after.
  destruct (HookFacts.preSave_frame ucdLower localTZA otherParse this)
    as (?&?&?&?&?&?&?&?&?&?&?&_).
  by repeat split.
Qed.

Module AcceptFacts.
Import EventModel Resave HookFacts.

Section Accept.
Variable ucdLower : ucd_table.
Variable localTZA : Z.
Variable otherParse : jsstring → option Z.

Lemma isModified_same a b f :
  sameElsewhere a b → isModified a f = isModified b f.
Proof.
  unfold sameElsewhere, isModified. intros (_&_&_&_&_&_&_&_&_&_&_&->). done.
Qed.

(** An accepted save went through the three steps without an error. *)
Lemma accepted_steps this this' :
  preSave ucdLower localTZA otherParse this = (this', None) →
  checkRequired this requiredFields = None
  ∧ ∃ this1 this2,
      slugStep ucdLower this = (this1, None)
      ∧ dateStep localTZA otherParse this1 = (this2, None)
      ∧ timeStep this2 = (this', None).
Proof.
  intros H. destruct (checkRequired this requiredFields) as [e|] eqn:Hreq.
  { unfold preSave in H. rewrite Hreq in H. discriminate. }
  split; [done|].
  destruct (preSave_steps ucdLower localTZA otherParse this Hreq)
    as (this1 & r1 & this2 & r2 & this3 & r3 & E1 & E2 & E3 & E).
  rewrite E in H. destruct r1; [discriminate|]. destruct r2; [discriminate|].
  injection H as -> ->. eauto.
Qed.

Lemma parse_of_normalizeDate d r :
  JSDate.normalizeDate localTZA otherParse d = Ok r →
  ∃ t, JSDate.parse localTZA otherParse d = Some t ∧ r = JSDate.isoDate t.
Proof.
  unfold JSDate.normalizeDate.
  destruct (JSDate.parse localTZA otherParse d) as [t|]; [|discriminate].
  intros [= <-]. exists t. split; [done | apply DateFacts.split_T].
Qed.

(** What an accepted save leaves in [date] and [time]. *)
Lemma accepted_date_time this this' :
  preSave ucdLower localTZA otherParse this = (this', None) →
  (isModified this F_date = true →
     ∃ d r, date this = Some d
            ∧ JSDate.normalizeDate localTZA otherParse d = Ok r
            ∧ date this' = Some r)
  ∧ (isModified this F_date = false → date this' = date this)
  ∧ (isModified this F_time = true →
     ∃ t r, time this = Some t ∧ normalizeTime t = Ok r ∧ time this' = Some r)
  ∧ (isModified this F_time = false → time this' = time this).
Proof.
  intros H. apply accepted_steps in H as (_ & this1 & this2 & E1 & E2 & E3).
  pose proof (slugStep_frame ucdLower this) as (F1 & D1 & T1). rewrite E1 in F1, D1, T1.
  pose proof (dateStep_frame localTZA otherParse this1) as (F2 & T2).
  rewrite E2 in F2, T2.
  pose proof (timeStep_frame this2) as (F3 & D3). rewrite E3 in F3, D3.
  simpl in *.
  assert (Md : isModified this1 F_date = isModified this F_date)
    by by apply isModified_same.
  assert (Mt : isModified this2 F_time = isModified this F_time).
  { rewrite (isModified_same this2 this1) by done. by apply isModified_same. }
  destruct (dateStep_cases localTZA otherParse this1)
    as [[Hd Ed] | [Hd [(d & r & Hdate & Hn & Ed) | (e & Ed & _)]]];
    rewrite E2 in Ed; [| |discriminate];
  destruct (timeStep_cases this2)
    as [[Ht Et] | [Ht [(t & r' & Htime & Hn' & Et) | (e & Et & _)]]];
    rewrite E3 in Et; try discriminate;
    injection Ed as ->; injection Et as ->;
    rewrite Md in Hd; rewrite Mt in Ht; rewrite Hd, Ht; simpl in *.
  - repeat split; try discriminate; intros _; congruence.
  - repeat split; try discriminate; intros _; [congruence|].
    exists t, r'. repeat split; congruence.
  - repeat split; try discriminate; intros _; [|congruence].
    exists d, r. repeat split; congruence.
  - repeat split; try discriminate; intros _.
    + exists d, r. repeat split; congruence.
    + exists t, r'. repeat split; congruence.
Qed.

(** When the hook accepts. *)
Lemma accepts_iff this :
  snd (preSave ucdLower localTZA otherParse this) = None ↔
  checkRequired this requiredFields = None
  ∧ (isModified this F_date = true →
     ∃ d t, date this = Some d ∧ JSDate.parse localTZA otherParse d = Some t)
  ∧ (isModified this F_time = true →
     ∃ t r, time this = Some t ∧ normalizeTime t = Ok r).
Proof.
  split.
  - intros H.
    destruct (preSave ucdLower localTZA otherParse this) as [this' r] eqn:E.
    simpl in H. subst r.
    pose proof (accepted_steps this this' E) as [Hreq _].
    pose proof (accepted_date_time this this' E) as (Hd & _ & Ht & _).
    split; [done|]. split.
    + intros Hm. destruct (Hd Hm) as (d & r & Hdate & Hn & _).
      apply parse_of_normalizeDate in Hn as (t & Hp & _). eauto.
    + intros Hm. destruct (Ht Hm) as (t & r & Htime & Hn & _). eauto.
  - intros (Hreq & Hd & Ht).
    destruct (preSave_steps ucdLower localTZA otherParse this Hreq)
      as (this1 & r1 & this2 & r2 & this3 & r3 & E1 & E2 & E3 & ->).
    pose proof (slugStep_frame ucdLower this) as (F1 & D1 & T1).
    rewrite E1 in F1, D1, T1.
    pose proof (dateStep_frame localTZA otherParse this1) as (F2 & T2).
    rewrite E2 in F2, T2. simpl in F1, D1, T1, F2, T2.
    destruct (EventFacts.checkRequired_get this _ F_title Hreq) as (t0 & Ht0 & _);
      [apply list_elem_of_here|]. simpl in Ht0.
    assert (r1 = None) as ->.
    { destruct (slugStep_cases ucdLower this)
        as [[_ E] | [_ [(t & _ & E) | (Hnone & _)]]]; [| |congruence];
        rewrite E1 in E; by injection E. }
    assert (r2 = None) as ->.
    { destruct (dateStep_cases localTZA otherParse this1)
        as [[_ E] | [Hm [(d & r & _ & _ & E) | (e & E & Hbad)]]];
        [rewrite E2 in E; by injection E | rewrite E2 in E; by injection E |].
      rewrite (isModified_same this1 this) in Hm by done.
      destruct (Hd Hm) as (d & t & Hdate & Hp). rewrite <- D1 in Hdate.
      specialize (Hbad d Hdate). unfold JSDate.normalizeDate in Hbad.
      rewrite Hp in Hbad. discriminate. }
    simpl.
    destruct (timeStep_cases this2)
      as [[_ E] | [Hm [(t & r & _ & _ & E) | (e & E & Hbad)]]];
      [rewrite E3 in E; by injection E | rewrite E3 in E; by injection E |].
    rewrite (isModified_same this2 this1), (isModified_same this1 this) in Hm by done.
    destruct (Ht Hm) as (t & r & Htime & Hn).
    rewrite <- T1, <- T2 in Htime. specialize (Hbad t Htime). congruence.
Qed.
End Accept.
End AcceptFacts.

(** X4: the hook accepts a document exactly when no required field is
    missing, a modified date parses, and a modified time is a valid time. *)
Theorem preSave_accepts_iff (ucdLower : ucd_table) (localTZA : Z)
    (otherParse : jsstring → option Z) (this : EventModel.EventDocument) :
  snd (EventModel.preSave ucdLower localTZA otherParse this) = None ↔
  EventModel.checkRequired this EventModel.requiredFields = None
  ∧ (EventModel.isModified this EventModel.F_date = true →
     ∃ d t, EventModel.date this = Some d
            ∧ JSDate.parse localTZA otherParse d = Some t)
  ∧ (EventModel.isModified this EventModel.F_time = true →
     ∃ t r, EventModel.time this = Some t ∧ normalizeTime t = Ok r).
Proof. apply AcceptFacts.accepts_iff. Qed.

(** X5: after an accepted save a modified date holds what [normalizeDate]
    returned for it and a modified time what [normalizeTime] returned; a date
    or a time that was not modified is left as it was. *)
Theorem preSave_stores_normalized (ucdLower : ucd_table) (localTZA : Z)
    (otherParse : jsstring → option Z) (this this' : EventModel.EventDocument) :
  EventModel.preSave ucdLower localTZA otherParse this = (this', None) →
  (EventModel.isModified this EventModel.F_date = true →
     ∃ d r, EventModel.date this = Some d
            ∧ JSDate.normalizeDate localTZA otherParse d = Ok r
            ∧ EventModel.date this' = Some r)
  ∧ (EventModel.isModified this EventModel.F_date = false →
     EventModel.date this' = EventModel.date this)
  ∧ (EventModel.isModified this EventModel.F_time = true →
     ∃ t r, EventModel.time this = Some t ∧ normalizeTime t = Ok r
            ∧ EventModel.time this' = Some r)
  ∧ (EventModel.isModified this EventModel.F_time = false →
     EventModel.time this' = EventModel.time this).
Proof. apply AcceptFacts.accepted_date_time. Qed.

(** X5 on a new document with the date ["2024-03-05"] and the time
    ["9:30"]. *)
Lemma preSave_stores_normalized_witness :
  let this := Samples.sampleEvent (lit "Rocq Days") in
  let this' := EventModel.set_time (lit "09:30")
                 (EventModel.set_date (lit "2024-03-05")
                    (EventModel.set_slug (lit "rocq-days") this)) in
  EventModel.preSave ucdIdentity 0 (fun _ => None) this = (this', None)
  ∧ ∃ t r, EventModel.time this = Some t ∧ normalizeTime t = Ok r
           ∧ EventModel.time this' = Some r.
Proof.
  intros this this'.
  assert (H : EventModel.preSave ucdIdentity 0 (fun _ => None) this = (this', None))
    by reflexivity.
  split; [exact H|].
  apply (proj1 (proj2 (proj2
           (preSave_stores_normalized ucdIdentity 0 (fun _ => None) this this' H)))).
  reflexivity.
Defined.

(** ** Saving an accepted document again *)

Module ResaveFacts.
Import EventModel Resave HookFacts AcceptFacts.

Lemma isoDate_no_space t :
  Forall (fun c => Char.isWhiteSpace c = false) (JSDate.isoDate t).
Proof.
  assert (Hd : ∀ w n, Forall (fun c => Char.isWhiteSpace c = false) (JSDate.digits w n)).
  { intros w n. unfold JSDate.digits.
    eapply Forall_impl; [apply DateFacts.fixedWidth_digits|].
    intros c. apply TimeStable.digit_not_space. }
  unfold JSDate.isoDate.
  destruct (JSDate.civilFromDays (t / JSDate.msPerDay)) as [[y m] d].
  rewrite !Forall_app. repeat split; try apply Hd; try by repeat constructor.
  unfold JSDate.isoYear. destruct (_ && _); [apply Hd|].
  destruct (y <? 0)%Z; rewrite Forall_app; (split; [by repeat constructor | apply Hd]).
Qed.

Lemma isoDate_not_missing t : missing (Some (JSDate.isoDate t)) = false.
Proof.
  unfold missing. rewrite SlugStable.trim_no_space by apply isoDate_no_space.
  unfold JSDate.isoDate.
  destruct (JSDate.civilFromDays (t / JSDate.msPerDay)) as [[y m] d].
  rewrite !length_app. simpl. apply Nat.eqb_neq. lia.
Qed.

Lemma normalizeTime_not_missing t r :
  normalizeTime t = Ok r → missing (Some r) = false.
Proof.
  intros H. apply TimeStable.normalizeTime_Ok in H
    as (a & b & m1 & m2 & -> & Ha & Hb & H1 & H2 & _).
  unfold missing. by rewrite TimeStable.normalized_trim.
Qed.

Lemma isModified_unmodified this f : isModified (unmodified this) f = false.
Proof. unfold isModified. apply bool_decide_eq_false_2. simpl. apply not_elem_of_nil. Qed.

Lemma set_slug_same v this : slug this = Some v → set_slug v this = this.
Proof. destruct this. simpl. by intros ->. Qed.

Section Resave.
Variable ucdLower : ucd_table.
Variable localTZA : Z.
Variable otherParse : jsstring → option Z.

(** The slug an accepted save leaves is present, or it is the slug of the
    title. *)
Lemma accepted_slug this this' :
  preSave ucdLower localTZA otherParse this = (this', None) →
  slugAbsent this' = false
  ∨ ∃ t, title this' = Some t ∧ slug this' = Some (createSlug ucdLower t).
Proof.
  intros H. pose proof (preSave_frame ucdLower localTZA otherParse this) as F.
  rewrite H in F. simpl in F. destruct F as (Htitle & _).
  apply accepted_steps in H as (Hreq & this1 & this2 & E1 & E2 & E3).
  assert (Hslug : slug this' = slug this1).
  { pose proof (EventFacts.timeStep_slug this2) as S3. rewrite E3 in S3.
    pose proof (EventFacts.dateStep_slug localTZA otherParse this1) as S2.
    rewrite E2 in S2. simpl in S2, S3. congruence. }
  destruct (slugStep_cases ucdLower this)
    as [[Hc E] | [_ [(t & Ht & E) | (_ & e & E)]]];
    rewrite E1 in E; [| |discriminate]; injection E as ->.
  - left. apply orb_false_iff in Hc as [Hc _].
    unfold slugAbsent in *. by rewrite Hslug.
  - right. exists t. split; [congruence|]. by rewrite Hslug.
Qed.

Lemma accepted_required this this' :
  preSave ucdLower localTZA otherParse this = (this', None) →
  checkRequired (unmodified this') requiredFields = None.
Proof.
  intros H. pose proof (preSave_frame ucdLower localTZA otherParse this) as F.
  rewrite H in F. simpl in F.
  destruct F as (F1 & F2 & F3 & F4 & F5 & F6 & F7 & F8 & _ & F9 & _).
  pose proof (accepted_date_time ucdLower localTZA otherParse this this' H)
    as (Dm & Du & Tm & Tu).
  apply accepted_steps in H as (Hreq & _).
  apply checkRequired_None in Hreq. apply checkRequired_None.
  unfold requiredFields in *.
  repeat match goal with
         | H : Forall _ (_ :: _) |- _ => inversion H; clear H; subst
         end.
  simpl in *.
  repeat constructor; simpl; try congruence.
  - destruct (isModified this F_date) eqn:E.
    + destruct (Dm eq_refl) as (d & r & _ & Hn & ->).
      apply parse_of_normalizeDate in Hn as (t & _ & ->).
      apply isoDate_not_missing.
    + rewrite (Du eq_refl). done.
  - destruct (isModified this F_time) eqn:E.
    + destruct (Tm eq_refl) as (t & r & _ & Hn & ->).
      by eapply normalizeTime_not_missing.
    + rewrite (Tu eq_refl). done.
Qed.

Lemma resave this this' :
  preSave ucdLower localTZA otherParse this = (this', None) →
  preSave ucdLower localTZA otherParse (unmodified this') = (unmodified this', None).
Proof.
  intros H. unfold preSave. rewrite (accepted_required this this' H).
  assert (Hslug : slugStep ucdLower (unmodified this') = (unmodified this', None)).
  { unfold slugStep. rewrite isModified_unmodified, orb_false_r.
    destruct (accepted_slug this this' H) as [Hp | (t & Ht & Hs)].
    - assert (slugAbsent (unmodified this') = false) as -> by exact Hp. done.
    - destruct (slugAbsent (unmodified this')); [|done].
      assert (title (unmodified this') = Some t) as -> by exact Ht. simpl.
      by rewrite set_slug_same. }
  rewrite Hslug. unfold dateStep, timeStep.
  by rewrite !isModified_unmodified.
Qed.
End Resave.
End ResaveFacts.

(** X6: a document the hook accepted is accepted again, and left exactly as
    it is, when it is saved once more with no path modified. *)
Theorem preSave_resave (ucdLower : ucd_table) (localTZA : Z)
    (otherParse : jsstring → option Z) (this this' : EventModel.EventDocument) :
  EventModel.preSave ucdLower localTZA otherParse this = (this', None) →
  EventModel.preSave ucdLower localTZA otherParse (Resave.unmodified this')
  = (Resave.unmodified this', None).
Proof. apply ResaveFacts.resave. Qed.

(** X6 on a new document whose title has the empty slug. *)
Lemma preSave_resave_witness :
  let this := Samples.sampleEvent (lit "!!!") in
  let this' := EventModel.set_time (lit "09:30") (EventModel.set_slug [] this) in
  EventModel.preSave ucdIdentity 0 (fun _ => None) this = (this', None)
  ∧ EventModel.preSave ucdIdentity 0 (fun _ => None) (Resave.unmodified this')
    = (Resave.unmodified this', None).
Proof.
  intros this this'.
  assert (H : EventModel.preSave ucdIdentity 0 (fun _ => None) this = (this', None))
    by reflexivity.
  split; [exact H|].
  exact (preSave_resave ucdIdentity 0 (fun _ => None) this this' H).
Defined.

(** ** The validator of [agenda] and [tags] *)


(** ** Saving a Booking: every outcome *)

(** X8: [save] resolves exactly when the event exists and the email passes
    the validator, and then the booking is appended; in every other case, an
    email that fails with an existing event included, it rejects and the
    database is as it was.  The Event collection is never changed. *)
Theorem booking_save_outcome (db : BookingModel.Database)
    (doc : BookingModel.BookingDocument) :
  BookingModel.events (fst (BookingModel.save db doc)) = BookingModel.events db
  ∧ ((BookingModel.eventId doc ∈ BookingModel.events db
      ∧ BookingModel.emailValidator (BookingModel.email doc) = true
      ∧ BookingModel.save db doc
        = (BookingModel.mkDatabase (BookingModel.events db)
             (BookingModel.bookings db ++ [doc]), Ok doc))
     ∨ (¬ (BookingModel.eventId doc ∈ BookingModel.events db
           ∧ BookingModel.emailValidator (BookingModel.email doc) = true)
        ∧ ∃ e, BookingModel.save db doc = (db, Throw e))).
Proof.
  unfold BookingModel.save, BookingModel.preSave, BookingModel.eventExists,
    BookingModel.emailValidator.
  destruct (Regex.test BookingModel.emailRegex (BookingModel.email doc)) eqn:Em; simpl.
  - destruct (decide (BookingModel.eventId doc ∈ BookingModel.events db)) as [Hin | Hno].
    + rewrite bool_decide_eq_true_2 by done. simpl. split; [done|]. by left.
    + rewrite bool_decide_eq_false_2 by done. simpl. split; [done|]. right.
      split; [tauto | eauto].
  - split; [done|]. right. split; [|eauto]. intros [_ ?]. discriminate.
Qed.

(** ** What an accepted email looks like *)

(** X9: an email the validator accepts holds exactly one [@], no whitespace,
    and at least five code units, and it does not start with [@]. *)
Theorem email_accepted_shape (s : jsstring) :
  BookingModel.emailValidator s = true →
  length (List.filter (N.eqb Char.at_sign) s) = 1%nat
  ∧ Forall (fun c => Char.isWhiteSpace c = false) s
  ∧ (5 ≤ length s)%nat
  ∧ head s ≠ Some Char.at_sign.
Proof.
  unfold BookingModel.emailValidator. rewrite RegexFacts.test_spec.
  intros H. apply EmailFacts.emailRegex_matches in H
    as (l & n & t & -> & Hl & Hn & Ht & Pl & Pn & Pt).
  assert (Hplain : ∀ u, EmailForm.plain u →
            List.filter (N.eqb Char.at_sign) u = []
            ∧ Forall (fun c => Char.isWhiteSpace c = false) u
            ∧ Forall (fun c => c ≠ Char.at_sign) u).
  { intros u Hu. induction Hu as [|c u Hc _ (IH1 & IH2 & IH3)]; [by repeat split|].
    unfold BookingModel.notSpaceAt in Hc.
    apply negb_true_iff, orb_false_iff in Hc as [Hw Ha].
    assert (Ha' : (Char.at_sign =? c) = false) by (by rewrite N.eqb_sym).
    cbn [List.filter]. rewrite Ha'. repeat split; [done | by constructor |].
    constructor; [by apply N.eqb_neq | done]. }
  destruct (Hplain l Pl) as (Fl & Wl & Al), (Hplain n Pn) as (Fn & Wn & _),
    (Hplain t Pt) as (Ft & Wt & _).
  split; [|split; [|split]].
  - rewrite !List.filter_app, Fl, Fn, Ft. reflexivity.
  - rewrite !Forall_app. repeat split; try done; by repeat constructor.
  - rewrite !length_app. simpl.
    destruct l; [done|]. destruct n; [done|]. destruct t; [done|]. simpl. lia.
  - destruct l as [|c l']; [done|]. simpl. intros [= ->].
    inversion Al; subst. done.
Qed.

(** X9 on ["a@b.c"]. *)
Lemma email_accepted_shape_witness :
  BookingModel.emailValidator (lit "a@b.c") = true
  ∧ length (List.filter (N.eqb Char.at_sign) (lit "a@b.c")) = 1%nat
  ∧ (5 ≤ length (lit "a@b.c"))%nat.
Proof.
  pose proof (email_accepted_shape (lit "a@b.c") eq_refl) as (H1 & _ & H3 & _).
  split; [reflexivity|]. split; [exact H1 | exact H3].
Defined.

(** ** The event-details page: every outcome *)

(** X10: the page renders the details of an event exactly when the response
    is OK, its body is a JSON object whose [event] member is an object with a
    truthy [description], and the similar events were fetched; it logs
    nothing then. *)
Theorem page_details_iff (similar : result (list Page.json)) (f : Page.fetched)
    (log : list Page.logged) (ev : option Page.json) (sims : list Page.json) :
  Page.EventDetailsPage similar f = (log, Page.Rendered (Page.EventDetails ev sims)) ↔
  log = []
  ∧ ∃ status members eventMembers,
      f = Page.Response status (Some (Page.JObject members))
      ∧ Page.ok status = true
      ∧ Page.prop (lit "event") (Some (Page.JObject members))
        = Some (Page.JObject eventMembers)
      ∧ ev = Some (Page.JObject eventMembers)
      ∧ Page.truthy (Page.prop (lit "description") ev) = true
      ∧ similar = Ok sims.
Proof.
  unfold Page.EventDetailsPage, Page.tryBlock. split.
  - destruct f as [e|status body]; [discriminate|].
    destruct (Page.ok status) eqn:Hok; cbn [negb].
    2: { destruct (status =? 404)%Z; discriminate. }
    destruct body as [data|]; [|discriminate].
    destruct data as [|b|nz|s|items|members];
      [discriminate | destruct b; discriminate | destruct nz; discriminate
      | destruct s; discriminate | discriminate | ].
    remember (Page.prop (lit "event") (Some (Page.JObject members))) as ev' eqn:Hev.
    cbn [Page.truthy Page.typeofObject negb orb].
    destruct ev' as [[|b|nz|s|items|em]|];
      [discriminate | destruct b; discriminate | destruct nz; discriminate
      | destruct s; discriminate | discriminate | | discriminate].
    cbn [Page.truthy Page.typeofObject negb orb].
    destruct (Page.truthy (Page.prop (lit "description") (Some (Page.JObject em))))
      eqn:Hdesc; cbn [negb]; [|discriminate].
    destruct similar as [sims'|e]; [|discriminate].
    intros [= <- <- <-]. split; [done|].
    exists status, members, em. by repeat split.
  - intros (-> & status & members & em & -> & Hok & Hev & -> & Hdesc & ->).
    rewrite Hok, Hev. cbn [Page.truthy Page.typeofObject negb orb].
    by rewrite Hdesc.
Qed.

(** X11: the page has three outcomes, and none other: the not-found page,
    always with the caught error logged last; the section [Event unavailable],
    for a status that is neither OK nor 404, with that status logged; the
    details of the event, with nothing logged.  No failure is left to
    propagate. *)
Theorem page_outcomes (similar : result (list Page.json)) (f : Page.fetched) :
  (∃ log t, Page.EventDetailsPage similar f
            = (log ++ [Page.ErrorFetching t], Page.NotFound))
  ∨ (∃ status body,
       f = Page.Response status body
       ∧ Page.ok status = false ∧ status ≠ 404%Z
       ∧ Page.EventDetailsPage similar f
         = ([Page.FailedToFetch status], Page.Rendered Page.EventUnavailable))
  ∨ (∃ ev sims, Page.EventDetailsPage similar f
                = ([], Page.Rendered (Page.EventDetails ev sims))).
Proof.
  unfold Page.EventDetailsPage, Page.tryBlock.
  destruct f as [e|status body]; [left; by eexists [], _|].
  destruct (Page.ok status) eqn:Hok; simpl.
  - destruct body as [data|]; [|left; by eexists [_], _].
    destruct (_ || _); [left; by eexists [_], _|].
    destruct (negb _); [left; by eexists [_], _|].
    destruct similar as [sims|e]; [right; right; eauto | left; by eexists [], _].
  - destruct (status =? 404)%Z eqn:E; [left; by eexists [], _|].
    right. left. apply Z.eqb_neq in E. exists status, body. by repeat split.
Qed.

(** ** The connection cache: after the promise has settled *)

Module SettledFacts.
Import ConnectionCache CacheInvariant ConnectionFacts Settled.

(** A settled promise stays as it settled. *)
Lemma settled_step st ev p r :
  promises st !! p = Some (Some r) → promises (step st ev) !! p = Some (Some r).
Proof.
  intros H. destruct ev as [|q r'|c]; simpl.
  - unfold enter. destruct (conn (cached st)); simpl; [done|].
    destruct (promise (cached st)); simpl; [done|]. by apply lookup_app_l_Some.
  - unfold settle. destruct (promises st !! q) as [[x|]|] eqn:E; simpl; try done.
    destruct (decide (q = p)) as [-> | Hne]; [congruence|].
    by rewrite list_lookup_insert_ne.
  - unfold resume. destruct (calls st !! c) as [[q| |]|]; simpl; try done.
    by destruct (promises st !! q) as [[[?|?]|]|].
Qed.

Lemma settled_fold evs st p r :
  promises st !! p = Some (Some r) →
  promises (fold_left step evs st) !! p = Some (Some r).
Proof.
  revert st. induction evs as [|ev evs IH]; intros st H; simpl; [done|].
  by apply IH, settled_step.
Qed.

Lemma reachable_settled st r :
  reachable st → promises st !! 0%nat = Some (Some r) → settledWith r st.
Proof.
  unfold reachable, settledWith. destruct (promises st) as [|o [|? ?]]; [done| |done].
  simpl. intros (_ & _ & _ & Hc) [= ->]. done.
Qed.

Lemma callAgrees_settled r c :
  callAgrees (Some r) c → c = Awaiting 0 ∨ c = finish r.
Proof.
  destruct c as [p|m|e]; simpl.
  - intros ->. by left.
  - intros [= ->]. by right.
  - intros [= ->]. by right.
Qed.

(** Going on after the [await] finishes the call, and undoes nothing. *)
Lemma resume_settled r c st :
  settledWith r st →
  settledWith r (resume c st)
  ∧ length (calls (resume c st)) = length (calls st)
  ∧ (c < length (calls st) → calls (resume c st) !! c = Some (finish r))%nat
  ∧ (∀ i, calls st !! i = Some (finish r) →
          calls (resume c st) !! i = Some (finish r)).
Proof.
  intros [Hp Hc]. unfold resume, settledWith.
  destruct (calls st !! c) as [cl|] eqn:Ec.
  2: { repeat split; try done. intros Hlt. apply lookup_ge_None in Ec. lia. }
  pose proof (Forall_lookup_1 _ _ _ _ Hc Ec) as Hcl.
  apply callAgrees_settled in Hcl as [-> | ->].
  - rewrite Hp. simpl.
    assert (Hfin : callAgrees (Some r) (finish r)) by (by destruct r).
    destruct r as [m|e]; simpl; rewrite length_insert.
    + repeat split; try done.
      * by apply Forall_insert.
      * intros Hlt. by apply list_lookup_insert_eq.
      * intros i Hi. destruct (decide (c = i)) as [-> | Hne]; [congruence|].
        by rewrite list_lookup_insert_ne.
    + repeat split; try done.
      * by apply Forall_insert.
      * intros Hlt. by apply list_lookup_insert_eq.
      * intros i Hi. destruct (decide (c = i)) as [-> | Hne]; [congruence|].
        by rewrite list_lookup_insert_ne.
  - destruct r as [m|e]; simpl; by repeat split.
Qed.

(** Every call goes on, in the order of the calls. *)
Lemma resume_all r (cs : list nat) st :
  settledWith r st →
  settledWith r (fold_left step (Resume <$> cs) st)
  ∧ length (calls (fold_left step (Resume <$> cs) st)) = length (calls st)
  ∧ (∀ i, calls st !! i = Some (finish r) →
          calls (fold_left step (Resume <$> cs) st) !! i = Some (finish r))
  ∧ (∀ c, c ∈ cs → (c < length (calls st))%nat →
          calls (fold_left step (Resume <$> cs) st) !! c = Some (finish r)).
Proof.
  revert st. induction cs as [|c cs IH]; intros st Hs.
  - split; [done|]. split; [done|]. split; [done|].
    intros c Hc. by apply not_elem_of_nil in Hc.
  - change (fold_left step (Resume <$> c :: cs) st)
      with (fold_left step (Resume <$> cs) (resume c st)).
    destruct (resume_settled r c st Hs) as (Hs1 & Hl1 & Hf1 & Hk1).
    destruct (IH (resume c st) Hs1) as (Hs2 & Hl2 & Hk2 & Hf2).
    split; [exact Hs2|]. split; [by rewrite Hl2|]. split.
    + intros i Hi. by apply Hk2, Hk1.
    + intros c' Hin Hlt. apply elem_of_cons in Hin as [-> | Hin].
      * by apply Hk2, Hf1.
      * apply Hf2; [done | by rewrite Hl1].
Qed.
End SettledFacts.

(** X12: a connection attempt that was rejected is never made again: from
    then on, whatever happens, [mongoose.connect] has been called once, no
    connection is cached, the promise stays rejected, and no call of
    [connectToDatabase] returns a connection. *)
Theorem connect_rejection_is_final (evs more : list ConnectionCache.event) (e : Error) :
  ConnectionCache.promises (ConnectionCache.run evs) !! 0%nat
  = Some (Some (ConnectionCache.Rejected e)) →
  let st := ConnectionCache.run (evs ++ more) in
  ConnectionCache.connectCalls st = 1%nat
  ∧ ConnectionCache.conn (ConnectionCache.cached st) = None
  ∧ ConnectionCache.promises st !! 0%nat = Some (Some (ConnectionCache.Rejected e))
  ∧ ∀ c m, ConnectionCache.calls st !! c ≠ Some (ConnectionCache.Returned m).
Proof.
  intros H st. subst st. unfold ConnectionCache.run in *. rewrite fold_left_app.
  pose proof (SettledFacts.settled_fold more _ _ _ H) as H'.
  pose proof (ConnectionFacts.reachable_fold more _
                (ConnectionFacts.reachable_fold evs _ ConnectionFacts.reachable_initial))
    as Hr.
  revert H' Hr.
  generalize (fold_left ConnectionCache.step more
                (fold_left ConnectionCache.step evs ConnectionCache.initial)).
  intros st H' Hr. unfold CacheInvariant.reachable in Hr.
  unfold ConnectionCache.connectCalls.
  destruct (ConnectionCache.promises st) as [|o [|? ?]]; [done| |done].
  simpl in H'. injection H' as ->. destruct Hr as (_ & _ & Hconn & Hcalls).
  repeat split; try done.
  - destruct (ConnectionCache.conn (ConnectionCache.cached st)) as [m|]; [|done].
    by specialize (Hconn m eq_refl).
  - intros c m Hc. rewrite Forall_lookup in Hcalls.
    specialize (Hcalls c _ Hc). simpl in Hcalls. discriminate.
Qed.

(** X12 on a call whose connection is refused, followed by a second call. *)
Lemma connect_rejection_is_final_witness :
  let evs := [ConnectionCache.Call;
              ConnectionCache.Settle 0
                (ConnectionCache.Rejected (mkError "ECONNREFUSED"))] in
  let more := [ConnectionCache.Resume 0; ConnectionCache.Call;
               ConnectionCache.Resume 1] in
  ConnectionCache.promises (ConnectionCache.run evs) !! 0%nat
  = Some (Some (ConnectionCache.Rejected (mkError "ECONNREFUSED")))
  ∧ ConnectionCache.connectCalls (ConnectionCache.run (evs ++ more)) = 1%nat
  ∧ ConnectionCache.conn (ConnectionCache.cached (ConnectionCache.run (evs ++ more)))
    = None.
Proof.
  intros evs more.
  pose proof (connect_rejection_is_final evs more (mkError "ECONNREFUSED") eq_refl)
    as (H1 & H2 & _).
  split; [reflexivity|]. split; [exact H1 | exact H2].
Defined.

(** X13: no caller is left waiting: once the promise of the connection
    attempt has settled, letting every call go on after its [await] finishes
    all of them with the outcome of that promise, the value it was fulfilled
    with or the error it was rejected with. *)
Theorem connect_all_finish (evs : list ConnectionCache.event)
    (r : ConnectionCache.settlement) :
  ConnectionCache.promises (ConnectionCache.run evs) !! 0%nat = Some (Some r) →
  let st := ConnectionCache.run evs in
  let n := length (ConnectionCache.calls st) in
  ConnectionCache.calls
    (fold_left ConnectionCache.step (ConnectionCache.Resume <$> seq 0 n) st)
  = replicate n (Settled.finish r).
Proof.
  intros H st n.
  pose proof (SettledFacts.reachable_settled st r
                (ConnectionFacts.reachable_run evs) H) as Hs.
  destruct (SettledFacts.resume_all r (seq 0 n) st Hs) as (_ & Hlen & _ & Hall).
  apply list_eq. intros i.
  destruct (decide (i < n)%nat) as [Hlt | Hge].
  - rewrite lookup_replicate_2 by done. apply Hall; [|done].
    apply elem_of_seq. lia.
  - rewrite (proj1 (lookup_replicate_None n (Settled.finish r) i)) by lia.
    apply lookup_ge_None. rewrite Hlen. fold n. lia.
Qed.

(** X13 on two calls made before the connection is established. *)
Lemma connect_all_finish_witness :
  let evs := [ConnectionCache.Call; ConnectionCache.Call;
              ConnectionCache.Settle 0 (ConnectionCache.Fulfilled 7)] in
  ConnectionCache.promises (ConnectionCache.run evs) !! 0%nat
  = Some (Some (ConnectionCache.Fulfilled 7))
  ∧ ConnectionCache.calls
      (fold_left ConnectionCache.step
         [ConnectionCache.Resume 0; ConnectionCache.Resume 1]
         (ConnectionCache.run evs))
    = [ConnectionCache.Returned 7; ConnectionCache.Returned 7].
Proof.
  intros evs. split; [reflexivity|].
  exact (connect_all_finish evs (ConnectionCache.Fulfilled 7) eq_refl).
Defined.

(** ** A normalized date, normalized again *)

Module DateStable.
Import JSDate CivilCheck.
Open Scope Z_scope.

Lemma allFrom_spec f n start :
  allFrom f start n = true → ∀ k, start <= k < start + Z.of_nat n → f k = true.
Proof.
  revert start. induction n as [|n IH]; simpl; intros start H k Hk; [lia|].
  apply andb_true_iff in H as [H1 H2].
  destruct (decide (k = start)) as [-> | Hne]; [done|].
  apply (IH (start + 1)); [done | lia].
Qed.

(** The 146097 days of a cycle, one by one. *)
Lemma cycle_checked : allFrom cycleDay 0 (Z.to_nat 146097) = true.
Proof. vm_compute. reflexivity. Qed.

Lemma cycleDay_true doe : 0 <= doe < 146097 → cycleDay doe = true.
Proof.
  intros H. apply (allFrom_spec cycleDay (Z.to_nat 146097) 0 cycle_checked).
  rewrite Z2Nat.id; lia.
Qed.

(** The calendar repeats every 400 years, which are 146097 days. *)
Lemma civilFromDays_shift z k :
  civilFromDays (z + 146097 * k)
  = let '(y, m, d) := civilFromDays z in (y + 400 * k, m, d).
Proof.
  unfold civilFromDays. cbv zeta.
  replace (z + 146097 * k + 719468) with (z + 719468 + k * 146097) by ring.
  rewrite Z.div_add by lia.
  replace (z + 719468 + k * 146097 - ((z + 719468) / 146097 + k) * 146097)
    with (z + 719468 - (z + 719468) / 146097 * 146097) by ring.
  set (doe := z + 719468 - (z + 719468) / 146097 * 146097).
  set (yoe := (doe - doe / 1460 + doe / 36524 - doe / 146096) / 365).
  set (mp := (5 * (doe - (365 * yoe + yoe / 4 - yoe / 100)) + 2) / 153).
  set (m := if mp <? 10 then mp + 3 else mp - 9).
  destruct (m <=? 2); f_equal; f_equal; ring.
Qed.

Lemma daysFromCivil_shift y m d k :
  daysFromCivil (y + 400 * k) m d = daysFromCivil y m d + 146097 * k.
Proof.
  unfold daysFromCivil. cbv zeta.
  set (adj := if m <=? 2 then 1 else 0).
  assert (Hy : ∀ y0, (if m <=? 2 then y0 - 1 else y0) = y0 - adj)
    by (intros y0; unfold adj; destruct (m <=? 2); lia).
  rewrite !Hy.
  replace (y + 400 * k - adj) with (y - adj + k * 400) by ring.
  rewrite Z.div_add by lia.
  replace (y - adj + k * 400 - ((y - adj) / 400 + k) * 400)
    with (y - adj - (y - adj) / 400 * 400) by ring.
  ring.
Qed.

Lemma isLeapYear_shift y k : isLeapYear (y + 400 * k) = isLeapYear y.
Proof.
  unfold isLeapYear.
  replace (y + 400 * k) with (y + (100 * k) * 4) at 1 by ring.
  replace (y + 400 * k) with (y + (4 * k) * 100) at 1 by ring.
  replace (y + 400 * k) with (y + k * 400) by ring.
  by rewrite !Z_mod_plus_full.
Qed.

Lemma daysInMonth_shift y m k : daysInMonth (y + 400 * k) m = daysInMonth y m.
Proof. unfold daysInMonth. by rewrite isLeapYear_shift. Qed.

(** The civil date of a day is a date of the calendar, and that day is its
    day number. *)
Lemma civilFromDays_valid z :
  let '(y, m, d) := civilFromDays z in
  1 <= m <= 12 ∧ 1 <= d <= daysInMonth y m ∧ daysFromCivil y m d = z.
Proof.
  set (k := (z + 719468) / 146097).
  set (doe := (z + 719468) mod 146097).
  assert (Hz : z = doe - 719468 + 146097 * k).
  { unfold doe, k. pose proof (Z.div_mod (z + 719468) 146097 ltac:(lia)). lia. }
  assert (Hdoe : 0 <= doe < 146097) by (apply Z.mod_pos_bound; lia).
  pose proof (cycleDay_true doe Hdoe) as Hc. unfold cycleDay in Hc.
  clearbody k doe. subst z. rewrite civilFromDays_shift.
  destruct (civilFromDays (doe - 719468)) as [[y m] d].
  rewrite !andb_true_iff, !Z.leb_le, Z.eqb_eq in Hc.
  destruct Hc as ((((H1 & H2) & H3) & H4) & H5).
  rewrite daysInMonth_shift, daysFromCivil_shift. lia.
Qed.

(** *** Reading back what [toISOString] wrote *)

Lemma Number_snoc xs c :
  Dec.Number (xs ++ [c]) = (10 * Dec.Number xs + Dec.digitValue c)%N.
Proof. unfold Dec.Number. by rewrite fold_left_app. Qed.

Lemma Number_fixedWidth w n :
  Dec.Number (Dec.fixedWidth w n) = (n mod 10 ^ N.of_nat w)%N.
Proof.
  revert n. induction w as [|w IH]; intros n.
  - simpl. by rewrite N.mod_1_r.
  - cbn [Dec.fixedWidth]. rewrite Number_snoc, IH.
    replace (N.of_nat (S w)) with (N.succ (N.of_nat w)) by lia.
    rewrite N.pow_succ_r'. rewrite N.Div0.mod_mul_r.
    unfold Dec.digitValue.
    generalize (n mod 10)%N, ((n / 10) mod 10 ^ N.of_nat w)%N. lia.
Qed.

Lemma length_fixedWidth w n : length (Dec.fixedWidth w n) = w.
Proof.
  revert n. induction w as [|w IH]; intros n; [done|].
  cbn [Dec.fixedWidth]. rewrite length_app, IH. simpl. lia.
Qed.

Lemma value_digits w n :
  0 <= n < 10 ^ Z.of_nat w → value (digits w n) = n.
Proof.
  intros H. unfold value, digits. rewrite Number_fixedWidth.
  rewrite N.mod_small; [lia|].
  apply N2Z.inj_lt. rewrite Z2N.id by lia.
  rewrite N2Z.inj_pow. rewrite nat_N_Z. simpl. lia.
Qed.

Lemma digits_all w n : forallb Char.isDigit (digits w n) = true.
Proof.
  apply forallb_forall. intros c Hc.
  pose proof (DateFacts.fixedWidth_digits w (Z.to_N n)) as H.
  rewrite Forall_forall in H. apply H. by apply list_elem_of_In.
Qed.

Lemma digits_no_dash w n : Forall (fun c => c ≠ Char.dash) (digits w n).
Proof.
  unfold digits. eapply Forall_impl; [apply DateFacts.fixedWidth_digits|].
  intros c. unfold Char.isDigit, Char.dash.
  rewrite andb_true_iff, !N.leb_le. lia.
Qed.

Lemma drop_past (a : jsstring) x r : drop (S (length a)) (a ++ x :: r) = r.
Proof. induction a as [|c a IH]; simpl; [done | exact IH]. Qed.

Lemma splitDashes_digits a b c w1 w2 w3 :
  splitDashes (digits w1 a ++ lit "-" ++ digits w2 b ++ lit "-" ++ digits w3 c)
  = Some (digits w1 a, digits w2 b, digits w3 c).
Proof.
  unfold splitDashes. cbv zeta.
  change (lit "-") with [Char.dash]. cbn [app].
  rewrite (DateFacts.beforeFirst_app Char.dash (digits w1 a)) by apply digits_no_dash.
  rewrite drop_past.
  rewrite (DateFacts.beforeFirst_app Char.dash (digits w2 b)) by apply digits_no_dash.
  rewrite drop_past.
  rewrite !digits_all. rewrite !length_app. cbn [length].
  rewrite !length_app. cbn [length].
  assert ((length (digits w1 a) + length (digits w2 b) + length (digits w3 c) + 2
           =? length (digits w1 a) + S (length (digits w2 b) + S (length (digits w3 c))))%nat
          = true) as -> by (apply Nat.eqb_eq; lia).
  reflexivity.
Qed.

Lemma length_digits w n : length (digits w n) = w.
Proof. apply length_fixedWidth. Qed.

Section Parse.
Variable localTZA : Z.
Variable otherParse : jsstring → option Z.

(** A date of the calendar written as [YYYY-MM-DD] is read back as midnight
    UTC of that day. *)
Lemma parse_iso y m d :
  0 <= y <= 9999 → 1 <= m <= 12 → 1 <= d <= daysInMonth y m →
  parse localTZA otherParse
    (digits 4 y ++ lit "-" ++ digits 2 m ++ lit "-" ++ digits 2 d)
  = Some (daysFromCivil y m d * msPerDay).
Proof.
  intros Hy Hm Hd. unfold parse. rewrite splitDashes_digits.
  assert (Hd31 : daysInMonth y m <= 31).
  { unfold daysInMonth. repeat destruct (_ =? _); try destruct (isLeapYear y); simpl; lia. }
  rewrite !length_digits.
  rewrite (value_digits 4 y), (value_digits 2 m), (value_digits 2 d) by (simpl; lia).
  cbn [Nat.eqb Nat.leb andb].
  assert ((1 <=? m) = true) as -> by (apply Z.leb_le; lia).
  assert ((m <=? 12) = true) as -> by (apply Z.leb_le; lia).
  assert ((1 <=? d) = true) as -> by (apply Z.leb_le; lia).
  assert ((d <=? daysInMonth y m) = true) as -> by (apply Z.leb_le; lia).
  reflexivity.
Qed.

(** The year of an ISO date of ten code units has four digits. *)
Lemma isoYear_four y :
  length (isoYear y) = 4%nat → 0 <= y <= 9999 ∧ isoYear y = digits 4 y.
Proof.
  unfold isoYear. destruct ((0 <=? y) && (y <=? 9999)) eqn:E.
  - intros _. apply andb_true_iff in E as [E1 E2].
    apply Z.leb_le in E1, E2. split; [lia | done].
  - destruct (y <? 0); rewrite length_app, length_digits; simpl; lia.
Qed.

Lemma normalizeDate_fixed t :
  length (isoDate t) = 10%nat →
  normalizeDate localTZA otherParse (isoDate t) = Ok (isoDate t).
Proof.
  intros Hlen. pose proof (civilFromDays_valid (t / msPerDay)) as Hv.
  assert (Hiso : ∀ u, isoDate u
            = let '(y, m, d) := civilFromDays (u / msPerDay) in
              isoYear y ++ lit "-" ++ digits 2 m ++ lit "-" ++ digits 2 d)
    by reflexivity.
  rewrite Hiso in Hlen. rewrite (Hiso t).
  destruct (civilFromDays (t / msPerDay)) as [[y m] d] eqn:Ec.
  destruct Hv as (Hm & Hd & Hz).
  rewrite !length_app, !length_digits in Hlen. simpl in Hlen.
  destruct (isoYear_four y) as [Hy Ey]; [lia|]. rewrite Ey.
  unfold normalizeDate. rewrite (parse_iso y m d Hy Hm Hd).
  rewrite DateFacts.split_T, Hiso, Hz.
  rewrite Z.div_mul by (unfold msPerDay; lia).
  by rewrite Ec, Ey.
Qed.
End Parse.
End DateStable.

(** X14: [normalizeDate] is idempotent on the dates of ten code units it
    returns ([YYYY-MM-DD], the years 0 to 9999): normalized again, in any
    time zone, such a date is returned unchanged. *)
Theorem normalizeDate_idempotent (localTZA : Z) (otherParse : jsstring → option Z)
    (date r : jsstring) :
  JSDate.normalizeDate localTZA otherParse date = Ok r →
  length r = 10%nat →
  JSDate.normalizeDate localTZA otherParse r = Ok r.
Proof.
  intros H Hlen.
  apply AcceptFacts.parse_of_normalizeDate in H as (t & _ & ->).
  by apply DateStable.normalizeDate_fixed.
Qed.

(** X14 on ["2024-3-5"] east of Greenwich. *)
Lemma normalizeDate_idempotent_witness :
  JSDate.normalizeDate 19800000 (fun _ => None) (lit "2024-3-5") = Ok (lit "2024-03-04")
  ∧ length (lit "2024-03-04") = 10%nat
  ∧ JSDate.normalizeDate 19800000 (fun _ => None) (lit "2024-03-04")
    = Ok (lit "2024-03-04").
Proof.
  assert (H : JSDate.normalizeDate 19800000 (fun _ => None) (lit "2024-3-5")
              = Ok (lit "2024-03-04")) by (vm_compute; reflexivity).
  split; [exact H|]. split; [reflexivity|].
  exact (normalizeDate_idempotent 19800000 (fun _ => None) (lit "2024-3-5")
           (lit "2024-03-04") H eq_refl).
Defined.
